(** * ruby-prof: method records, method keys and owner resolution

    A shallow embedding of [ext/ruby_prof/rp_method.c]: the naming helpers,
    [method_key], the [prof_method_t] life cycle, [resolve_source_klass],
    the Ruby-visible accessors of [RubyProf::MethodInfo] and the
    [_dump_data]/[_load_data] pair, together with the properties the design
    document states about them. *)

From Stdlib Require Import ZArith String Ascii List Bool Lia.
From stdpp Require Import base option strings gmap.

Local Open Scope string_scope.
Local Open Scope Z_scope.

(** ** Machine values *)

(** [VALUE] and [ID] are [unsigned long] (64 bits on the LP64 targets the
    extension is built for); so is [st_index_t]. *)
Definition VALUE := Z.
Definition ID := Z.
Definition st_index_t := Z.
Definition ptr := Z.

Definition wrap64 (z : Z) : Z := z mod 2 ^ 64.
(** The value of an [unsigned long] reinterpreted as a [long long]. *)
Definition signed64 (z : Z) : Z :=
  if wrap64 z <? 2 ^ 63 then wrap64 z else wrap64 z - 2 ^ 64.

Definition Qfalse : VALUE := 0.

(** ** The host object model *)

(** [BUILTIN_TYPE] tags of ruby.h. *)
Inductive ruby_type :=
| T_NONE | T_OBJECT | T_CLASS | T_MODULE | T_FLOAT | T_STRING | T_REGEXP
| T_ARRAY | T_HASH | T_STRUCT | T_BIGNUM | T_FILE | T_DATA | T_MATCH
| T_COMPLEX | T_RATIONAL | T_SYMBOL | T_ICLASS.

Definition ruby_type_eqb (a b : ruby_type) : bool :=
  match a, b with
  | T_NONE, T_NONE | T_OBJECT, T_OBJECT | T_CLASS, T_CLASS
  | T_MODULE, T_MODULE | T_FLOAT, T_FLOAT | T_STRING, T_STRING
  | T_REGEXP, T_REGEXP | T_ARRAY, T_ARRAY | T_HASH, T_HASH
  | T_STRUCT, T_STRUCT | T_BIGNUM, T_BIGNUM | T_FILE, T_FILE
  | T_DATA, T_DATA | T_MATCH, T_MATCH | T_COMPLEX, T_COMPLEX
  | T_RATIONAL, T_RATIONAL | T_SYMBOL, T_SYMBOL | T_ICLASS, T_ICLASS => true
  | _, _ => false
  end.

(** What rp_method.c asks of the interpreter (ruby.h) and of ruby_prof.h,
    neither of which is part of the file: the reflection queries are pure
    functions of the handle, the constants are left open. *)
Record ruby_host := {
  Qnil : VALUE;
  BUILTIN_TYPE : VALUE -> ruby_type;
  (** [FL_TEST(klass, FL_SINGLETON)] *)
  FL_SINGLETON : VALUE -> bool;
  (** [rb_iv_get(klass, "__attached__")] *)
  rb_iv_get_attached : VALUE -> VALUE;
  (** [RBASIC(klass)->klass] *)
  RBASIC_klass : VALUE -> VALUE;
  rb_class_superclass : VALUE -> VALUE;
  rb_class_name : VALUE -> string;
  rb_any_to_s : VALUE -> string;
  rb_id2str : ID -> string;
  RUBY_EVENT_C_CALL : Z;
  (** bit offsets of the source relation, an enum of ruby_prof.h *)
  kModuleIncludee : Z;
  kModuleSingleton : Z;
  kObjectSingleton : Z
}.

(** [RTEST(v)] of ruby.h: [!(((VALUE)(v) & ~Qnil) == 0)]. *)
Definition RTEST (h : ruby_host) (v : VALUE) : bool :=
  negb (Z.land v (Z.lnot (Qnil h)) =? 0).

(** [klass == 0 || klass == Qnil] *)
Definition is_nil_klass (h : ruby_host) (klass : VALUE) : bool :=
  (klass =? 0) || (klass =? Qnil h).

Definition RP_REL_GET (r off : Z) : Z := Z.land r (Z.shiftl 1 off).
Definition RP_REL_SET (r off : Z) : Z := Z.lor r (Z.shiftl 1 off).

(** ** String helpers of the host: [rb_str_split] and [rb_ary_join] *)

(** Fields of [s] between the occurrences of a non-empty literal [sep],
    scanned from the left; [skip] counts the characters of a separator that
    has been recognised and is still to be passed over. *)
Fixpoint split_fields (sep : string) (skip : nat) (s : string) : list string :=
  match s with
  | EmptyString => [EmptyString]
  | String c r =>
      match skip with
      | S k => split_fields sep k r
      | O =>
          if String.prefix sep s
          then EmptyString :: split_fields sep (String.length sep - 1) r
          else match split_fields sep 0 r with
               | f :: fs => String c f :: fs
               | [] => [String c EmptyString]
               end
      end
  end.

(** With no limit given, [String#split] removes the trailing empty fields. *)
Fixpoint drop_trailing_empty (l : list string) : list string :=
  match l with
  | [] => []
  | f :: fs =>
      match drop_trailing_empty fs with
      | [] => if String.eqb f EmptyString then [] else [f]
      | fs' => f :: fs'
      end
  end.

Definition rb_str_split (s sep : string) : list string :=
  drop_trailing_empty (split_fields sep 0 s).

Fixpoint rb_ary_join (l : list string) (joiner : string) : string :=
  match l with
  | [] => EmptyString
  | [x] => x
  | x :: xs => x +:+ joiner +:+ rb_ary_join xs joiner
  end.

(** ** Naming helpers *)

Definition figure_singleton_name (h : ruby_host) (klass : VALUE) : string :=
  let attached := rb_iv_get_attached h klass in
  if ruby_type_eqb (BUILTIN_TYPE h attached) T_CLASS then
    "<Class::" +:+ rb_class_name h attached +:+ ">"
  else if ruby_type_eqb (BUILTIN_TYPE h attached) T_MODULE then
    "<Module::" +:+ rb_class_name h attached +:+ ">"
  else if ruby_type_eqb (BUILTIN_TYPE h attached) T_OBJECT then
    let super := rb_class_superclass h klass in
    "<Object::" +:+ rb_class_name h super +:+ ">"
  else
    rb_any_to_s h klass.

Definition klass_name (h : ruby_host) (klass : VALUE) : string :=
  if is_nil_klass h klass then "[global]"
  else if ruby_type_eqb (BUILTIN_TYPE h klass) T_MODULE then rb_class_name h klass
  else if ruby_type_eqb (BUILTIN_TYPE h klass) T_CLASS && FL_SINGLETON h klass
       then figure_singleton_name h klass
  else if ruby_type_eqb (BUILTIN_TYPE h klass) T_CLASS then rb_class_name h klass
  else "[unknown]".

Definition method_name (h : ruby_host) (mid : ID) : string :=
  if RTEST h mid then rb_id2str h mid else "[no method]".

Definition full_name (h : ruby_host) (klass : VALUE) (mid : ID) : string :=
  klass_name h klass +:+ "#" +:+ method_name h mid.

Definition source_klass_name (h : ruby_host) (source_klass : VALUE) : string :=
  if RTEST h source_klass then rb_class_name h source_klass else "[global]".

Definition calltree_name (h : ruby_host) (source_klass : VALUE)
    (relation : Z) (mid : ID) : string :=
  let klass_str := source_klass_name h source_klass in
  let method_str := method_name h mid in
  let klass_path := rb_str_split klass_str "::" in
  let result := rb_ary_join klass_path "/" in
  let result := result +:+ "::" in
  let result :=
    if negb (RP_REL_GET relation (kObjectSingleton h) =? 0)
    then result +:+ "*" else result in
  let result :=
    if negb (RP_REL_GET relation (kModuleSingleton h) =? 0)
    then result +:+ "^" else result in
  result +:+ method_str.

(** ** Method keys *)

Record prof_method_key_t := {
  klass : VALUE;
  mid : ID;
  key : st_index_t
}.

Definition method_key (h : ruby_host) (klass0 : VALUE) (mid0 : ID)
    : prof_method_key_t :=
  let hash := wrap64 (wrap64 (Z.shiftl klass0 4) + wrap64 (Z.shiftl mid0 2)) in
  if is_nil_klass h klass0 then
    {| klass := Qnil h; mid := mid0; key := hash |}
  else if ruby_type_eqb (BUILTIN_TYPE h klass0) T_ICLASS then
    {| klass := RBASIC_klass h klass0; mid := mid0; key := hash |}
  else
    {| klass := klass0; mid := mid0; key := hash |}.

(** [rp_init_method_info] fills the global [blank_key]. *)
Definition blank_key (h : ruby_host) : prof_method_key_t :=
  method_key h (Qnil h) 0.

Definition method_table_cmp (key1 key2 : prof_method_key_t) : Z :=
  if negb (klass key1 =? klass key2) || negb (mid key1 =? mid key2)
  then 1 else 0.

Definition method_table_hash (k : prof_method_key_t) : st_index_t := key k.

(** ** Outcomes of the C functions *)

(** A call either returns, raises a Ruby exception ([rb_raise]), runs into
    undefined behaviour (a NULL or dangling pointer is dereferenced, a field
    that was never assigned is read), or exhausts the fuel of the model. *)
Inductive outcome (A : Type) :=
| Ok (a : A)
| Raise (exc : string)
| Fault
| OutOfFuel.
Arguments Ok {A} a.
Arguments Raise {A} exc.
Arguments Fault {A}.
Arguments OutOfFuel {A}.

#[global] Instance outcome_ret : MRet outcome := fun A a => Ok a.
#[global] Instance outcome_bind : MBind outcome := fun A B f o =>
  match o with
  | Ok a => f a
  | Raise exc => Raise exc
  | Fault => Fault
  | OutOfFuel => OutOfFuel
  end.

(** Reading through a pointer or reading a field: [None] is a NULL or
    dangling pointer, or a field never assigned since [ALLOC]. *)
Definition defined {A} (o : option A) : outcome A :=
  match o with Some a => Ok a | None => Fault end.

(** ** Tables, edges and method records *)

(** A [prof_method_key_t*] stored in a table is the address of the key a
    [prof_method_t] owns (allocated in [prof_method_create], released in
    [prof_method_free]) or [&blank_key]. *)
Inductive key_ref :=
| KeyOf (m : ptr)
| BlankKey.

(** The two fields of [prof_call_info_t] (rp_call_info.h) this file reads. *)
Record prof_call_info_t := {
  method : ptr;
  parent : option ptr
}.

(** [st_table] of the interpreter's st.c, in insertion order; every entry
    keeps the hash its key had when it was inserted. *)
Record st_table_entry (V : Type) := {
  st_hash : st_index_t;
  st_key : key_ref;
  st_record : V
}.
Arguments st_hash {V} _.
Arguments st_key {V} _.
Arguments st_record {V} _.
Arguments Build_st_table_entry {V} _ _ _.

Definition st_table (V : Type) := list (st_table_entry V).

Record prof_method_t := {
  mkey : prof_method_key_t;
  root : option bool;
  excluded : Z;
  recursive : bool;
  parent_call_infos : option (st_table prof_call_info_t);
  child_call_infos : option (st_table prof_call_info_t);
  visits : Z;
  object : VALUE;
  source_file : option string;
  line : Z;
  source_klass : VALUE;
  resolved : Z;
  relation : Z
}.

(** [RData] of a [RubyProf::MethodInfo] object. *)
Record RData := {
  data : option ptr;
  dmark : bool;
  dfree : bool
}.

Record mem := {
  methods : gmap Z prof_method_t;
  objects : gmap Z RData
}.

Definition store_method (st : mem) (p : ptr) (m : prof_method_t) : mem :=
  {| methods := <[p := m]> (methods st); objects := objects st |}.

Definition get_method (st : mem) (p : ptr) : outcome prof_method_t :=
  defined (methods st !! p).

Definition deref_key (h : ruby_host) (st : mem) (k : key_ref)
    : outcome prof_method_key_t :=
  match k with
  | BlankKey => Ok (blank_key h)
  | KeyOf p => m ← get_method st p; Ok (mkey m)
  end.

(** *** st.c *)

Definition st_init_table {V} : st_table V := [].

(** [PTR_EQUAL]: the stored hash is compared first, then the keys with
    [method_table_cmp]. *)
Definition st_entry_matches {V} (h : ruby_host) (st : mem)
    (hash : st_index_t) (k : prof_method_key_t) (e : st_table_entry V)
    : outcome bool :=
  if st_hash e =? hash then
    k' ← deref_key h st (st_key e);
    Ok (method_table_cmp k k' =? 0)
  else Ok false.

Fixpoint st_insert_entry {V} (h : ruby_host) (st : mem) (hash : st_index_t)
    (k : prof_method_key_t) (kr : key_ref) (v : V) (t : st_table V)
    : outcome (st_table V) :=
  match t with
  | [] => Ok [Build_st_table_entry hash kr v]
  | e :: t' =>
      b ← st_entry_matches h st hash k e;
      if b : bool then Ok (Build_st_table_entry (st_hash e) (st_key e) v :: t')
      else t'' ← st_insert_entry h st hash k kr v t'; Ok (e :: t'')
  end.

Definition st_insert {V} (h : ruby_host) (st : mem) (t : st_table V)
    (kr : key_ref) (v : V) : outcome (st_table V) :=
  k ← deref_key h st kr;
  st_insert_entry h st (method_table_hash k) k kr v t.

Fixpoint st_lookup {V} (h : ruby_host) (st : mem) (t : st_table V)
    (k : prof_method_key_t) : outcome (option V) :=
  match t with
  | [] => Ok None
  | e :: t' =>
      b ← st_entry_matches h st (method_table_hash k) k e;
      if b : bool then Ok (Some (st_record e)) else st_lookup h st t' k
  end.

(** [st_free_table] of a table pointer read from a field. *)
Definition st_free_table {V} (t : option (st_table V)) : outcome unit :=
  _ ← defined t; Ok tt.

Definition method_table_create : st_table prof_call_info_t := st_init_table.

(** ** [prof_method_t] *)

Definition already_freed : string :=
  "This RubyProf::MethodInfo instance has already been freed, likely because its profile has been freed.".

Definition prof_get_method (st : mem) (self : VALUE) : outcome ptr :=
  r ← defined (objects st !! self);
  match data r with
  | None => Raise already_freed
  | Some result => Ok result
  end.

Definition prof_method_set_source_info (method_data : prof_method_t)
    (source_file0 : option string) (source_line : Z) : prof_method_t :=
  match source_file0 with
  | Some buffer =>
      {| mkey := mkey method_data; root := root method_data;
         excluded := excluded method_data; recursive := recursive method_data;
         parent_call_infos := parent_call_infos method_data;
         child_call_infos := child_call_infos method_data;
         visits := visits method_data; object := object method_data;
         source_file := Some buffer; line := source_line;
         source_klass := source_klass method_data;
         resolved := resolved method_data; relation := relation method_data |}
  | None =>
      {| mkey := mkey method_data; root := root method_data;
         excluded := excluded method_data; recursive := recursive method_data;
         parent_call_infos := parent_call_infos method_data;
         child_call_infos := child_call_infos method_data;
         visits := visits method_data; object := object method_data;
         source_file := None; line := 0;
         source_klass := source_klass method_data;
         resolved := resolved method_data; relation := relation method_data |}
  end.

(** The struct [prof_method_create] fills; [rb_sourcefile] is what the
    interpreter's [rb_sourcefile()] answers at the call. *)
Definition prof_method_create (h : ruby_host) (rb_sourcefile : option string)
    (event : Z) (klass0 : VALUE) (mid0 : ID) (line0 : Z) : prof_method_t :=
  let result :=
    {| mkey := method_key h klass0 mid0;
       root := Some false;
       excluded := 0;
       recursive := false;
       parent_call_infos := Some method_table_create;
       child_call_infos := Some method_table_create;
       visits := 0;
       object := Qnil h;
       source_file := None; line := 0;
       source_klass := Qnil h;
       resolved := 0;
       relation := 0 |} in
  let source_file0 :=
    if negb (event =? RUBY_EVENT_C_CALL h) then rb_sourcefile else None in
  prof_method_set_source_info result source_file0 line0.

(** [prof_method_create_excluded] assigns neither [root] nor the two
    tables: they keep whatever [ALLOC] returned. *)
Definition prof_method_create_excluded (h : ruby_host) (klass0 : VALUE)
    (mid0 : ID) : prof_method_t :=
  {| mkey := method_key h klass0 mid0;
     root := None;
     excluded := 1;
     recursive := false;
     parent_call_infos := None;
     child_call_infos := None;
     visits := 0;
     object := Qnil h;
     source_file := None;
     line := 0;
     source_klass := Qnil h;
     resolved := 0;
     relation := 0 |}.

(** Field assignments. *)
Definition set_object (m : prof_method_t) (o : VALUE) : prof_method_t :=
  {| mkey := mkey m; root := root m; excluded := excluded m;
     recursive := recursive m; parent_call_infos := parent_call_infos m;
     child_call_infos := child_call_infos m; visits := visits m;
     object := o; source_file := source_file m; line := line m;
     source_klass := source_klass m; resolved := resolved m;
     relation := relation m |}.

Definition set_key (m : prof_method_t) (k : prof_method_key_t) : prof_method_t :=
  {| mkey := k; root := root m; excluded := excluded m;
     recursive := recursive m; parent_call_infos := parent_call_infos m;
     child_call_infos := child_call_infos m; visits := visits m;
     object := object m; source_file := source_file m; line := line m;
     source_klass := source_klass m; resolved := resolved m;
     relation := relation m |}.

Definition set_recursive (m : prof_method_t) (r : bool) : prof_method_t :=
  {| mkey := mkey m; root := root m; excluded := excluded m;
     recursive := r; parent_call_infos := parent_call_infos m;
     child_call_infos := child_call_infos m; visits := visits m;
     object := object m; source_file := source_file m; line := line m;
     source_klass := source_klass m; resolved := resolved m;
     relation := relation m |}.

Definition set_parent_call_infos (m : prof_method_t)
    (t : st_table prof_call_info_t) : prof_method_t :=
  {| mkey := mkey m; root := root m; excluded := excluded m;
     recursive := recursive m; parent_call_infos := Some t;
     child_call_infos := child_call_infos m; visits := visits m;
     object := object m; source_file := source_file m; line := line m;
     source_klass := source_klass m; resolved := resolved m;
     relation := relation m |}.

Definition set_child_call_infos (m : prof_method_t)
    (t : st_table prof_call_info_t) : prof_method_t :=
  {| mkey := mkey m; root := root m; excluded := excluded m;
     recursive := recursive m; parent_call_infos := parent_call_infos m;
     child_call_infos := Some t; visits := visits m;
     object := object m; source_file := source_file m; line := line m;
     source_klass := source_klass m; resolved := resolved m;
     relation := relation m |}.

(** [method->resolved = 1; method->relation = relation;
    method->source_klass = klass;] *)
Definition set_resolution (m : prof_method_t) (rel : Z) (k : VALUE)
    : prof_method_t :=
  {| mkey := mkey m; root := root m; excluded := excluded m;
     recursive := recursive m; parent_call_infos := parent_call_infos m;
     child_call_infos := child_call_infos m; visits := visits m;
     object := object m; source_file := source_file m; line := line m;
     source_klass := k; resolved := 1; relation := rel |}.

(** [st_foreach(table, prof_method_collect_call_infos, result)]: the edges
    of the table, in table order.

    Modelled from the spec: [prof_call_info_wrap] and [prof_get_call_info]
    belong to rp_call_info.c; each edge is produced and read back by the
    edge collaborator, so the Ruby object wrapping an edge stands for the
    edge itself. *)
Definition prof_call_info_wrap (call_info : prof_call_info_t)
    : prof_call_info_t := call_info.
Definition prof_get_call_info (call_info : prof_call_info_t)
    : prof_call_info_t := call_info.

Definition collect_call_infos (t : st_table prof_call_info_t)
    : list prof_call_info_t :=
  map (fun e => prof_call_info_wrap (st_record e)) t.

(** Modelled from the spec: [call_info_table_insert] belongs to
    rp_call_info.c; it inserts the edge into the table under the given
    key. *)
Definition call_info_table_insert (h : ruby_host) (st : mem)
    (table : st_table prof_call_info_t) (k : key_ref) (val : prof_call_info_t)
    : outcome (st_table prof_call_info_t) :=
  st_insert h st table k val.

Definition prof_method_ruby_gc_free (h : ruby_host) (st : mem) (p : ptr)
    : outcome mem :=
  m ← get_method st p;
  objs ← (if negb (object m =? Qnil h) then
            _ ← defined (objects st !! object m);
            Ok (<[object m := {| data := None; dmark := false; dfree := false |}]>
                  (objects st))
          else Ok (objects st));
  Ok {| methods := <[p := set_object m (Qnil h)]> (methods st);
        objects := objs |}.

Definition prof_method_free (h : ruby_host) (st : mem) (p : ptr)
    : outcome mem :=
  st1 ← prof_method_ruby_gc_free h st p;
  m ← get_method st1 p;
  _ ← st_free_table (parent_call_infos m);
  _ ← st_free_table (child_call_infos m);
  Ok {| methods := delete p (methods st1); objects := objects st1 |}.

(** [Data_Wrap_Struct] hands out the handle [obj] of a new object. *)
Definition Data_Wrap_Struct (st : mem) (obj : VALUE) (p : ptr) : mem :=
  {| methods := methods st;
     objects := <[obj := {| data := Some p; dmark := true; dfree := true |}]>
                  (objects st) |}.

Definition prof_method_allocate (h : ruby_host) (rb_sourcefile : option string)
    (st : mem) (p : ptr) (obj : VALUE) : mem :=
  let method_data := prof_method_create h rb_sourcefile 0 (Qnil h) 0 0 in
  Data_Wrap_Struct (store_method st p (set_object method_data obj)) obj p.

Definition prof_method_wrap (h : ruby_host) (st : mem) (p : ptr) (obj : VALUE)
    : outcome (VALUE * mem) :=
  result ← get_method st p;
  if object result =? Qnil h then
    Ok (obj, Data_Wrap_Struct (store_method st p (set_object result obj)) obj p)
  else Ok (object result, st).

Definition prof_method_get (st : mem) (self : VALUE) : outcome ptr :=
  r ← defined (objects st !! self);
  match data r with
  | None => Raise already_freed
  | Some result => Ok result
  end.

(** [prof_method_mark]: the handles it passes to [rb_gc_mark] and the edges
    [prof_method_mark_call_infos] passes to [prof_call_info_mark], in the
    order of the calls. *)
Definition prof_method_mark (st : mem) (p : ptr)
    : outcome (list VALUE * list prof_call_info_t) :=
  method0 ← get_method st p;
  let marked :=
    ((if negb (klass (mkey method0) =? 0) then [klass (mkey method0)] else [])
     ++ (if negb (source_klass method0 =? 0) then [source_klass method0] else [])
     ++ (if negb (object method0 =? 0) then [object method0] else []))%list in
  parents ← defined (parent_call_infos method0);
  children ← defined (child_call_infos method0);
  Ok (marked, (map st_record parents ++ map st_record children)%list).

(** ** Method table *)

Fixpoint method_table_free_iterator (h : ruby_host) (st : mem)
    (table : st_table ptr) : outcome mem :=
  match table with
  | [] => Ok st
  | e :: table' =>
      st1 ← prof_method_free h st (st_record e);
      method_table_free_iterator h st1 table'
  end.

Definition method_table_free (h : ruby_host) (st : mem) (table : st_table ptr)
    : outcome mem :=
  method_table_free_iterator h st table.

Definition method_table_insert (h : ruby_host) (st : mem)
    (table : st_table ptr) (k : key_ref) (val : ptr) : outcome (st_table ptr) :=
  st_insert h st table k val.

Definition method_table_lookup (h : ruby_host) (st : mem)
    (table : st_table ptr) (k : prof_method_key_t) : outcome (option ptr) :=
  st_lookup h st table k.

(** ** Source owner resolution *)

(** The [while (1)] loop of [resolve_source_klass]; the third component
    counts the iterations it ran. *)
Fixpoint resolve_walk (fuel : nat) (h : ruby_host) (klass0 : VALUE)
    (relation0 : Z) : option (VALUE * Z * nat) :=
  match fuel with
  | O => None
  | S fuel' =>
      let continue k r :=
        match resolve_walk fuel' h k r with
        | Some (k', r', n) => Some (k', r', S n)
        | None => None
        end in
      if is_nil_klass h klass0 then Some (klass0, relation0, 1%nat)
      else if ruby_type_eqb (BUILTIN_TYPE h klass0) T_CLASS && FL_SINGLETON h klass0
      then
        let attached := rb_iv_get_attached h klass0 in
        if ruby_type_eqb (BUILTIN_TYPE h attached) T_CLASS
           || ruby_type_eqb (BUILTIN_TYPE h attached) T_MODULE
        then continue attached (RP_REL_SET relation0 (kModuleSingleton h))
        else if ruby_type_eqb (BUILTIN_TYPE h attached) T_OBJECT
        then continue (rb_class_superclass h klass0)
                      (RP_REL_SET relation0 (kObjectSingleton h))
        else continue (rb_class_superclass h klass0)
                      (RP_REL_SET relation0 (kObjectSingleton h))
      else if ruby_type_eqb (BUILTIN_TYPE h klass0) T_ICLASS
      then continue (RBASIC_klass h klass0)
                    (RP_REL_SET relation0 (kModuleIncludee h))
      else Some (klass0, relation0, 1%nat)
  end.

(** Returns the source owner, the method record as the call leaves it and
    the number of loop iterations the call ran. *)
Definition resolve_source_klass (fuel : nat) (h : ruby_host)
    (m : prof_method_t) : option (VALUE * prof_method_t * nat) :=
  if negb (resolved m =? 0) then Some (source_klass m, m, 0%nat)
  else
    match resolve_walk fuel h (klass (mkey m)) 0 with
    | Some (k, rel, n) => Some (k, set_resolution m rel k, n)
    | None => None
    end.

(** ** The methods of [RubyProf::MethodInfo] *)

Definition prof_method_callers (st : mem) (self : VALUE)
    : outcome (list prof_call_info_t) :=
  p ← prof_get_method st self;
  method0 ← get_method st p;
  t ← defined (parent_call_infos method0);
  Ok (collect_call_infos t).

Definition prof_method_callees (st : mem) (self : VALUE)
    : outcome (list prof_call_info_t) :=
  p ← prof_get_method st self;
  method0 ← get_method st p;
  t ← defined (child_call_infos method0);
  Ok (collect_call_infos t).

Definition prof_method_line (st : mem) (self : VALUE) : outcome Z :=
  p ← prof_method_get st self;
  method0 ← get_method st p;
  Ok (line method0).

Definition prof_method_source_file (st : mem) (self : VALUE) : outcome string :=
  p ← prof_method_get st self;
  method0 ← get_method st p;
  match source_file method0 with
  | Some f => Ok f
  | None => Ok "ruby_runtime"
  end.

Definition prof_method_klass (st : mem) (self : VALUE) : outcome VALUE :=
  p ← prof_method_get st self;
  result ← get_method st p;
  Ok (klass (mkey result)).

(** The symbol [ID2SYM] returns is identified by its [ID]. *)
Definition prof_method_id (st : mem) (self : VALUE) : outcome ID :=
  p ← prof_method_get st self;
  result ← get_method st p;
  Ok (mid (mkey result)).

Definition prof_klass_name (h : ruby_host) (st : mem) (self : VALUE)
    : outcome string :=
  p ← prof_method_get st self;
  method0 ← get_method st p;
  Ok (klass_name h (klass (mkey method0))).

Definition prof_method_name (h : ruby_host) (st : mem) (self : VALUE)
    : outcome string :=
  p ← prof_method_get st self;
  method0 ← get_method st p;
  Ok (method_name h (mid (mkey method0))).

Definition prof_full_name (h : ruby_host) (st : mem) (self : VALUE)
    : outcome string :=
  p ← prof_method_get st self;
  method0 ← get_method st p;
  Ok (full_name h (klass (mkey method0)) (mid (mkey method0))).

Definition prof_method_root (st : mem) (self : VALUE) : outcome bool :=
  p ← prof_method_get st self;
  method0 ← get_method st p;
  defined (root method0).

Definition prof_method_recursive (st : mem) (self : VALUE) : outcome bool :=
  p ← prof_method_get st self;
  method0 ← get_method st p;
  Ok (recursive method0).

Definition prof_source_klass (fuel : nat) (h : ruby_host) (st : mem)
    (self : VALUE) : outcome (VALUE * mem) :=
  p ← prof_method_get st self;
  method0 ← get_method st p;
  match resolve_source_klass fuel h method0 with
  | Some (k, method1, _) => Ok (k, store_method st p method1)
  | None => OutOfFuel
  end.

Definition prof_calltree_name (fuel : nat) (h : ruby_host) (st : mem)
    (self : VALUE) : outcome (string * mem) :=
  p ← prof_method_get st self;
  method0 ← get_method st p;
  match resolve_source_klass fuel h method0 with
  | Some (source_klass0, method1, _) =>
      Ok (calltree_name h source_klass0 (relation method1) (mid (mkey method1)),
          store_method st p method1)
  | None => OutOfFuel
  end.

(** ** [_dump_data] and [_load_data] *)

(** The hash [prof_method_dump] builds: one field per symbol key. [mid] is
    the Integer [LL2NUM] makes of the [ID] read as a [long long];
    [recursive] and [line] are the Fixnums [INT2FIX] makes of the flag and of
    the line, both of which fit one. *)
Record method_dump := {
  dump_klass : VALUE;
  dump_mid : Z;
  dump_recursive : Z;
  dump_source_file : option string;
  dump_line : Z;
  dump_callers : list prof_call_info_t;
  dump_callees : list prof_call_info_t
}.

Definition LL2NUM (i : Z) : Z := signed64 i.
Definition INT2FIX (i : Z) : Z := i.

(** The RangeError the conversions of ruby.h raise (its message quotes the
    number). *)
Definition range_error : string := "RangeError".

(** [NUM2LL] ([rb_num2ll]): the Integer as a [long long], a RangeError when
    it does not fit. *)
Definition NUM2LL (n : Z) : outcome Z :=
  if (- 2 ^ 63 <=? n) && (n <? 2 ^ 63) then Ok n else Raise range_error.

(** [FIX2INT] ([rb_fix2int], [int] being narrower than [long]): the Integer
    as an [int], a RangeError when it does not fit. *)
Definition FIX2INT (n : Z) : outcome Z :=
  if (- 2 ^ 31 <=? n) && (n <? 2 ^ 31) then Ok n else Raise range_error.

(** The ArgumentError [StringValueCStr] raises. *)
Definition argument_error : string := "ArgumentError".

(** A Ruby String may hold a null byte, a C string ends at the first one. *)
Definition has_nul (s : string) : bool :=
  existsb (Ascii.eqb Ascii.zero) (list_ascii_of_string s).

(** [StringValueCStr] ([rb_string_value_cstr]): the String as a C string, an
    ArgumentError when it holds a null byte. *)
Definition StringValueCStr (s : string) : outcome string :=
  if has_nul s then Raise argument_error else Ok s.

(** [source_file == Qnil ? NULL : StringValueCStr(source_file)]. *)
Definition c_source_file (source_file0 : option string)
    : outcome (option string) :=
  match source_file0 with
  | None => Ok None
  | Some s => s ← StringValueCStr s; Ok (Some s)
  end.

(** What a [char*] points to: no null byte before the end. *)
Definition c_string (source_file0 : option string) : Prop :=
  forall s, source_file0 = Some s -> has_nul s = false.

(** [DATA_PTR(self)] is used unchecked: [method_data->key] is read first.
    [source_file] is a C string, of which [rb_str_new_cstr] makes a String
    with the same bytes. *)
Definition prof_method_dump (st : mem) (self : VALUE) : outcome method_dump :=
  r ← defined (objects st !! self);
  p ← defined (data r);
  method_data ← get_method st p;
  callers ← prof_method_callers st self;
  callees ← prof_method_callees st self;
  Ok {| dump_klass := klass (mkey method_data);
        dump_mid := LL2NUM (mid (mkey method_data));
        dump_recursive := INT2FIX (Z.b2z (recursive method_data));
        dump_source_file := source_file method_data;
        dump_line := INT2FIX (line method_data);
        dump_callers := callers;
        dump_callees := callees |}.

(** The two [for] loops of [prof_method_load]. *)
Fixpoint load_callers (h : ruby_host) (st : mem) (p : ptr)
    (callers : list prof_call_info_t) : outcome mem :=
  match callers with
  | [] => Ok st
  | call_info :: rest =>
      let call_info_data := prof_get_call_info call_info in
      let k := match parent call_info_data with
               | Some q => KeyOf q
               | None => BlankKey
               end in
      method_data ← get_method st p;
      t ← defined (parent_call_infos method_data);
      t' ← call_info_table_insert h st t k call_info_data;
      load_callers h (store_method st p (set_parent_call_infos method_data t'))
        p rest
  end.

Fixpoint load_callees (h : ruby_host) (st : mem) (p : ptr)
    (callees : list prof_call_info_t) : outcome mem :=
  match callees with
  | [] => Ok st
  | call_info :: rest =>
      let call_info_data := prof_get_call_info call_info in
      let k := KeyOf (method call_info_data) in
      method_data ← get_method st p;
      t ← defined (child_call_infos method_data);
      t' ← call_info_table_insert h st t k call_info_data;
      load_callees h (store_method st p (set_child_call_infos method_data t'))
        p rest
  end.

(** [RDATA(self)->data] is read unchecked; the pointer is first dereferenced
    by [method_key(method_data->key, ...)], after [NUM2LL] has converted the
    method id. The flag [recursive] is a [bool] ([isRecursive] in the design
    document; the struct is declared in ruby_prof.h): the [int] assigned to
    it is tested against 0. The arguments of [prof_method_set_source_info]
    are converted before the call. A conversion that raises leaves the
    method as far as it was written; the outcome does not return that
    memory. *)
Definition prof_method_load (h : ruby_host) (st : mem) (self : VALUE)
    (d : method_dump) : outcome mem :=
  r ← defined (objects st !! self);
  let klass0 := dump_klass d in
  mid_ll ← NUM2LL (dump_mid d);
  let mid0 := wrap64 mid_ll in
  p ← defined (data r);
  method_data ← get_method st p;
  let method_data := set_key method_data (method_key h klass0 mid0) in
  source_line ← FIX2INT (dump_line d);
  source_file0 ← c_source_file (dump_source_file d);
  let method_data :=
    prof_method_set_source_info method_data source_file0 source_line in
  recursive0 ← FIX2INT (dump_recursive d);
  let method_data := set_recursive method_data (negb (recursive0 =? 0)) in
  let st := store_method st p method_data in
  st ← load_callers h st p (dump_callers d);
  load_callees h st p (dump_callees d).

(** ** The design document's vocabulary *)

(** The owner a key is meant to hold: the module behind an inclusion proxy,
    the owner itself otherwise (the absent owner is [Qnil]). *)
Definition normalized_owner (h : ruby_host) (owner : VALUE) : VALUE :=
  if is_nil_klass h owner then Qnil h
  else match BUILTIN_TYPE h owner with
       | T_ICLASS => RBASIC_klass h owner
       | _ => owner
       end.

(** The shift-and-add hash of an owner and a method identifier. *)
Definition combined_hash (owner : VALUE) (methodId : ID) : st_index_t :=
  wrap64 (wrap64 (Z.shiftl owner 4) + wrap64 (Z.shiftl methodId 2)).

(** A qualified name with every ["::"] rewritten to ["/"], left to right. *)
Fixpoint ns_to_path (s : string) : string :=
  match s with
  | EmptyString => EmptyString
  | String c r =>
      match r with
      | String c' r' =>
          if Ascii.eqb c ":" && Ascii.eqb c' ":"
          then String "/" (ns_to_path r')
          else String c (ns_to_path r)
      | EmptyString => String c EmptyString
      end
  end.

Fixpoint ends_with_sep (s : string) : bool :=
  match s with
  | EmptyString => false
  | String c r =>
      match r with
      | String c' EmptyString => Ascii.eqb c ":" && Ascii.eqb c' ":"
      | _ => ends_with_sep r
      end
  end.

Definition calltreeName (h : ruby_host) (resolvedOwner : VALUE) (flags : Z)
    (methodId : ID) : string :=
  (if RTEST h resolvedOwner then ns_to_path (rb_class_name h resolvedOwner)
   else "[global]")
  +:+ "::"
  +:+ (if Z.testbit flags (kObjectSingleton h) then "*" else "")
  +:+ (if Z.testbit flags (kModuleSingleton h) then "^" else "")
  +:+ (if RTEST h methodId then rb_id2str h methodId else "[no method]").

(** One step of the resolution walk: where it continues from, if it does. *)
Definition resolve_next (h : ruby_host) (k : VALUE) : option VALUE :=
  if is_nil_klass h k then None
  else if ruby_type_eqb (BUILTIN_TYPE h k) T_CLASS && FL_SINGLETON h k then
    match BUILTIN_TYPE h (rb_iv_get_attached h k) with
    | T_CLASS | T_MODULE => Some (rb_iv_get_attached h k)
    | _ => Some (rb_class_superclass h k)
    end
  else if ruby_type_eqb (BUILTIN_TYPE h k) T_ICLASS then Some (RBASIC_klass h k)
  else None.

(** The identity of a key: its two compared fields. *)
Definition key_id (k : prof_method_key_t) : VALUE * ID := (klass k, mid k).

Definition ref_id (h : ruby_host) (st : mem) (kr : key_ref)
    : option (VALUE * ID) :=
  match deref_key h st kr with
  | Ok k => Some (key_id k)
  | _ => None
  end.

(** The key set of an edge table, read through the key pointers. *)
Definition table_key_ids {V} (h : ruby_host) (st : mem) (t : st_table V)
    : list (option (VALUE * ID)) :=
  map (fun e => ref_id h st (st_key e)) t.

(** The key of the other endpoint of an edge. *)
Definition caller_key_ref (c : prof_call_info_t) : key_ref :=
  match parent c with
  | Some q => KeyOf q
  | None => BlankKey
  end.
Definition callee_key_ref (c : prof_call_info_t) : key_ref := KeyOf (method c).

(** Every entry of the table sits under the key of its edge's other
    endpoint, and that key is readable. *)
Definition edge_keyed_by (h : ruby_host) (st : mem)
    (other : prof_call_info_t -> key_ref) (t : st_table prof_call_info_t)
    : Prop :=
  Forall (fun e => exists i,
            ref_id h st (st_key e) = Some i /\
            ref_id h st (other (st_record e)) = Some i) t.

(** ** A small object model to evaluate the functions on *)

(** [Foo] (1000) and [Baz] (3000) are classes, [Bar] (2000) and [A::B]
    (5000) modules; 1008, 2008 and 5008 are the singleton classes of [Foo],
    [Bar] and [A::B]; 3008 is the singleton class of the [Baz] instance
    3016, 4008 that of the array 4016; 2104 and 2208 are the proxies of
    [Bar] included into [Foo] and into [Baz]. *)
Definition example_type (v : VALUE) : ruby_type :=
  if (v =? 1000) || (v =? 3000) || (v =? 4000) then T_CLASS
  else if (v =? 1008) || (v =? 2008) || (v =? 3008) || (v =? 4008) || (v =? 5008)
       then T_CLASS
  else if (v =? 2000) || (v =? 5000) then T_MODULE
  else if (v =? 2104) || (v =? 2208) then T_ICLASS
  else if v =? 3016 then T_OBJECT
  else if v =? 4016 then T_ARRAY
  else T_NONE.

Definition example_class_name (v : VALUE) : string :=
  if v =? 1000 then "Foo"
  else if v =? 2000 then "Bar"
  else if v =? 3000 then "Baz"
  else if v =? 4000 then "Array"
  else if v =? 5000 then "A::B"
  else "".

Definition example_host : ruby_host :=
  {| Qnil := 8;
     BUILTIN_TYPE := example_type;
     FL_SINGLETON := fun v =>
       (v =? 1008) || (v =? 2008) || (v =? 3008) || (v =? 4008) || (v =? 5008);
     rb_iv_get_attached := fun v =>
       if v =? 1008 then 1000 else if v =? 2008 then 2000
       else if v =? 3008 then 3016 else if v =? 4008 then 4016
       else if v =? 5008 then 5000 else 8;
     RBASIC_klass := fun v =>
       if (v =? 2104) || (v =? 2208) then 2000 else 0;
     rb_class_superclass := fun v =>
       if v =? 3008 then 3000 else if v =? 4008 then 4000 else 8;
     rb_class_name := example_class_name;
     rb_any_to_s := fun v =>
       if v =? 4008 then "#<Class:0x0fa8>"
       else if v =? 3016 then "#<Baz:0x0bc8>" else "#<Object>";
     rb_id2str := fun i => if i =? 1201 then "run" else "call";
     RUBY_EVENT_C_CALL := 32;
     kModuleIncludee := 0;
     kModuleSingleton := 1;
     kObjectSingleton := 2 |}.

Definition example_rank (v : VALUE) : nat :=
  if FL_SINGLETON example_host v then 1%nat
  else match example_type v with T_ICLASS => 1%nat | _ => 0%nat end.

Definition empty_mem : mem := {| methods := ∅; objects := ∅ |}.

(** A profile with one method [Foo#run] at 4096, wrapped by the object
    9000 and registered in the method table. *)
Definition example_method : prof_method_t :=
  prof_method_create example_host (Some "app.rb") 8 1000 1201 12.

Definition example_profile : mem :=
  Data_Wrap_Struct
    (store_method empty_mem 4096 (set_object example_method 9000)) 9000 4096.

Definition example_table : st_table ptr :=
  [Build_st_table_entry (key (mkey example_method)) (KeyOf 4096) 4096].

(** An excluded method at 4200, wrapped by the object 9100. *)
Definition example_excluded : mem :=
  Data_Wrap_Struct
    (store_method empty_mem 4200
       (set_object (prof_method_create_excluded example_host 1000 1201) 9100))
    9100 4200.

(** A root method [Foo#run] at 4096 (object 9000) with one caller edge that
    has no parent and one callee edge to [Baz#call] at 4104. *)
Definition example_root_edge : prof_call_info_t :=
  {| method := 4096; parent := None |}.
Definition example_callee_edge : prof_call_info_t :=
  {| method := 4104; parent := Some 4096 |}.

Definition example_callee : prof_method_t :=
  prof_method_create example_host (Some "app.rb") 8 3000 1300 30.

Definition example_root : prof_method_t :=
  {| mkey := method_key example_host 1000 1201;
     root := Some true;
     excluded := 0;
     recursive := true;
     parent_call_infos :=
       Some [Build_st_table_entry (key (blank_key example_host)) BlankKey
               example_root_edge];
     child_call_infos :=
       Some [Build_st_table_entry (key (mkey example_callee)) (KeyOf 4104)
               example_callee_edge];
     visits := 0;
     object := 9000;
     source_file := Some "app.rb";
     line := 12;
     source_klass := 8;
     resolved := 0;
     relation := 0 |}.

Definition example_graph : mem :=
  Data_Wrap_Struct
    (store_method (store_method empty_mem 4104 example_callee) 4096 example_root)
    9000 4096.

(** A record of [Baz#call] without source file and without edges. *)
Definition example_record : method_dump :=
  {| dump_klass := 3000;
     dump_mid := 1300;
     dump_recursive := 0;
     dump_source_file := None;
     dump_line := 7;
     dump_callers := [];
     dump_callees := [] |}.

(** ** Auxiliary notions of the proofs *)

Definition last_field (l : list string) : string :=
  List.last l EmptyString.

(** The wrapper [o] exists and its data pointer is NULL. *)
Definition nulled (st : mem) (o : VALUE) : Prop :=
  exists r, objects st !! o = Some r /\ data r = None.

(** The edges [cs] inserted one after the other into [t], each under the
    key [other] names, in a memory that does not change. *)
Fixpoint insert_all (h : ruby_host) (st : mem)
    (other : prof_call_info_t -> key_ref) (t : st_table prof_call_info_t)
    (cs : list prof_call_info_t) : outcome (st_table prof_call_info_t) :=
  match cs with
  | [] => Ok t
  | c :: cs' =>
      t' ← call_info_table_insert h st t (other c) c;
      insert_all h st other t' cs'
  end.

(** Two memories in which every key pointer reads the same. *)
Definition same_keys (h : ruby_host) (st1 st2 : mem) : Prop :=
  forall kr, deref_key h st1 kr = deref_key h st2 kr.

(** Every key pointer of the table can be read. *)
Definition readable {V} (h : ruby_host) (st : mem) (t : st_table V) : Prop :=
  Forall (fun e => exists k, deref_key h st (st_key e) = Ok k) t.

(** What identifies an entry to [st_lookup]: the hash it was stored with
    and the identity of its key. *)
Definition entry_id {V} (h : ruby_host) (st : mem) (e : st_table_entry V)
    : st_index_t * option (VALUE * ID) :=
  (st_hash e, ref_id h st (st_key e)).

(** No two entries of the table answer to the same lookup. *)
Definition distinct_keys {V} (h : ruby_host) (st : mem) (t : st_table V)
    : Prop :=
  List.NoDup (map (entry_id h st) t).

(** Two method records that differ in their edge tables at most. *)
Definition same_scalars (m m' : prof_method_t) : Prop :=
  mkey m' = mkey m /\ root m' = root m /\ excluded m' = excluded m /\
  recursive m' = recursive m /\ visits m' = visits m /\
  object m' = object m /\ source_file m' = source_file m /\
  line m' = line m /\ source_klass m' = source_klass m /\
  resolved m' = resolved m /\ relation m' = relation m.

(** * Properties *)

(** ** Basic facts about the host macros *)

Lemma ruby_type_eqb_eq (a b : ruby_type) : ruby_type_eqb a b = true <-> a = b.
Proof. destruct a, b; simpl; split; intros H; congruence. Qed.

Lemma ruby_type_eqb_neq (a b : ruby_type) : a <> b -> ruby_type_eqb a b = false.
Proof.
  intros H. destruct (ruby_type_eqb a b) eqn:E; [|done].
  by apply ruby_type_eqb_eq in E.
Qed.



Lemma RP_REL_GET_testbit (r off : Z) :
  (RP_REL_GET r off =? 0) = negb (Z.testbit r off).
Proof.
  unfold RP_REL_GET. destruct (Z.ltb_spec off 0) as [Hneg|Hpos].
  - rewrite Z.testbit_neg_r by lia. rewrite Z.shiftl_1_l, Z.pow_neg_r by lia.
    by rewrite Z.land_0_r.
  - rewrite Z.shiftl_1_l.
    assert (Z.land r (2 ^ off) = if Z.testbit r off then 2 ^ off else 0) as ->.
    { apply Z.bits_inj'. intros n Hn. rewrite Z.land_spec, Z.pow2_bits_eqb by lia.
      destruct (Z.eqb_spec off n) as [->|Hne].
      - destruct (Z.testbit r n); [by rewrite Z.pow2_bits_true|by rewrite Z.bits_0].
      - rewrite andb_false_r. destruct (Z.testbit r off).
        + rewrite Z.pow2_bits_false by lia. done.
        + by rewrite Z.bits_0. }
    destruct (Z.testbit r off); simpl; [|done].
    apply Z.eqb_neq. pose proof (Z.pow_pos_nonneg 2 off). lia.
Qed.

(** Setting a flag keeps the flags already set. *)
Lemma RP_REL_SET_keeps (r off i : Z) :
  Z.testbit r i = true -> Z.testbit (RP_REL_SET r off) i = true.
Proof. intros Hi. unfold RP_REL_SET. by rewrite Z.lor_spec, Hi. Qed.

(** ** Keys *)

Lemma method_key_klass (h : ruby_host) (klass0 : VALUE) (mid0 : ID) :
  klass (method_key h klass0 mid0) = normalized_owner h klass0.
Proof.
  unfold method_key, normalized_owner. destruct (is_nil_klass h klass0); [done|].
  destruct (BUILTIN_TYPE h klass0); done.
Qed.

Lemma method_key_mid (h : ruby_host) (klass0 : VALUE) (mid0 : ID) :
  mid (method_key h klass0 mid0) = mid0.
Proof.
  unfold method_key. destruct (is_nil_klass h klass0); [done|].
  destruct (ruby_type_eqb _ _); done.
Qed.

(** The stored hash is taken from the owner as it was passed in. *)
Lemma method_key_hash (h : ruby_host) (klass0 : VALUE) (mid0 : ID) :
  key (method_key h klass0 mid0) = combined_hash klass0 mid0.
Proof.
  unfold method_key, combined_hash. destruct (is_nil_klass h klass0); [done|].
  destruct (ruby_type_eqb _ _); done.
Qed.

Lemma method_table_cmp_eq (k1 k2 : prof_method_key_t) :
  method_table_cmp k1 k2 = 0 <-> key_id k1 = key_id k2.
Proof.
  unfold method_table_cmp, key_id.
  destruct (Z.eqb_spec (klass k1) (klass k2)), (Z.eqb_spec (mid k1) (mid k2));
    simpl; split; intros H; try done; try congruence.
Qed.

(** C1. [method_key] stores the normalized owner, but computes the hash from
    the raw owner: the keys of one method reached through the two proxies of
    [Bar] (2104, included into [Foo]; 2208, included into [Baz]) hold the
    same owner [Bar] and compare equal under [method_table_cmp], yet carry
    different hashes, neither being the hash of the normalized owner; the
    table, which compares hashes first, does not find one under the other. *)
Theorem method_key_hash_of_raw_owner :
  let k1 := method_key example_host 2104 1201 in
  let k2 := method_key example_host 2208 1201 in
  klass k1 = normalized_owner example_host 2104 /\
  klass k1 = 2000 /\ klass k2 = 2000 /\
  method_table_cmp k1 k2 = 0 /\
  method_table_hash k1 <> method_table_hash k2 /\
  method_table_hash k1 <> combined_hash (normalized_owner example_host 2104) 1201 /\
  method_table_hash k1 = combined_hash 2104 1201 /\
  st_lookup example_host
    (store_method empty_mem 4096
       (prof_method_create example_host None 8 2104 1201 1))
    [Build_st_table_entry (method_table_hash k1) (KeyOf 4096) 4096] k2
  = Ok None.
Proof. vm_compute. repeat split; congruence. Qed.

(** ** Display names *)

(** C5 (as the code has it). An owner that is neither absent, nor a module,
    nor a class (so not a singleton class either) is named by the fixed
    string ["[unknown]"]; the function returns for every handle. *)
Theorem klass_name_unrecognized (h : ruby_host) (klass0 : VALUE) :
  is_nil_klass h klass0 = false ->
  BUILTIN_TYPE h klass0 <> T_MODULE ->
  BUILTIN_TYPE h klass0 <> T_CLASS ->
  klass_name h klass0 = "[unknown]".
Proof.
  intros Hnil Hmod Hcls. unfold klass_name. rewrite Hnil.
  by rewrite (ruby_type_eqb_neq _ _ Hmod), (ruby_type_eqb_neq _ _ Hcls).
Qed.

Lemma klass_name_unrecognized_witness :
  klass_name example_host 3016 = "[unknown]".
Proof.
  apply (klass_name_unrecognized example_host 3016);
    [reflexivity | vm_compute; discriminate | vm_compute; discriminate].
Defined.

(** C5, refuted as stated: the [Baz] instance 3016 matches none of the known
    categories, and its name is not its generic string conversion. *)
Lemma klass_name_not_generic_conversion :
  is_nil_klass example_host 3016 = false /\
  BUILTIN_TYPE example_host 3016 <> T_MODULE /\
  BUILTIN_TYPE example_host 3016 <> T_CLASS /\
  klass_name example_host 3016 <> rb_any_to_s example_host 3016.
Proof. vm_compute. repeat split; discriminate. Qed.

(** C6. The name of a singleton class follows what the class is attached
    to: a class, a module, a plain object (named after the superclass of the
    singleton), or anything else (the generic conversion of the singleton
    class itself). *)
Theorem figure_singleton_name_cases (h : ruby_host) (klass0 : VALUE) :
  let attached := rb_iv_get_attached h klass0 in
  (BUILTIN_TYPE h attached = T_CLASS ->
   figure_singleton_name h klass0
   = "<Class::" +:+ rb_class_name h attached +:+ ">") /\
  (BUILTIN_TYPE h attached = T_MODULE ->
   figure_singleton_name h klass0
   = "<Module::" +:+ rb_class_name h attached +:+ ">") /\
  (BUILTIN_TYPE h attached = T_OBJECT ->
   figure_singleton_name h klass0
   = "<Object::" +:+ rb_class_name h (rb_class_superclass h klass0) +:+ ">") /\
  (BUILTIN_TYPE h attached <> T_CLASS ->
   BUILTIN_TYPE h attached <> T_MODULE ->
   BUILTIN_TYPE h attached <> T_OBJECT ->
   figure_singleton_name h klass0 = rb_any_to_s h klass0).
Proof.
  intros attached. unfold figure_singleton_name. fold attached.
  split; [|split; [|split]].
  - by intros ->.
  - by intros ->.
  - by intros ->.
  - intros Hc Hm Ho.
    by rewrite (ruby_type_eqb_neq _ _ Hc), (ruby_type_eqb_neq _ _ Hm),
      (ruby_type_eqb_neq _ _ Ho).
Qed.

Example singleton_of_class : klass_name example_host 1008 = "<Class::Foo>".
Proof. reflexivity. Qed.
Example singleton_of_module : klass_name example_host 2008 = "<Module::Bar>".
Proof. reflexivity. Qed.
Example singleton_of_object : klass_name example_host 3008 = "<Object::Baz>".
Proof. reflexivity. Qed.
Example singleton_of_array :
  klass_name example_host 4008 = rb_any_to_s example_host 4008.
Proof. reflexivity. Qed.

(** ** Creation *)

(** C9. A created method is neither root, excluded nor recursive, has no
    visits and two empty edge tables; a C call leaves it without a source
    file, and without a source file its line is 0 whatever line was passed. *)
Theorem prof_method_create_defaults (h : ruby_host)
    (rb_sourcefile : option string) (event : Z) (klass0 : VALUE) (mid0 : ID)
    (line0 : Z) :
  let m := prof_method_create h rb_sourcefile event klass0 mid0 line0 in
  mkey m = method_key h klass0 mid0 /\
  root m = Some false /\ excluded m = 0 /\ recursive m = false /\
  visits m = 0 /\
  parent_call_infos m = Some [] /\ child_call_infos m = Some [] /\
  resolved m = 0 /\
  (event = RUBY_EVENT_C_CALL h -> source_file m = None) /\
  (source_file m = None -> line m = 0) /\
  (forall f, source_file m = Some f -> rb_sourcefile = Some f /\ line m = line0).
Proof.
  intros m. subst m. unfold prof_method_create.
  destruct (Z.eqb_spec event (RUBY_EVENT_C_CALL h)) as [He|He]; simpl.
  - repeat split; try done.
  - destruct rb_sourcefile as [f|]; simpl; repeat split; try done;
      intros; simplify_eq; done.
Qed.

(** C10. An excluded method, however wrapped, has neither edge table
    assigned, where a created method has both; freeing it and listing its
    callers or callees read the unassigned fields. *)
Theorem excluded_method_tables_unassigned (h : ruby_host) (klass0 : VALUE)
    (mid0 : ID) (o : VALUE) (st : mem) (p : ptr) (self : VALUE) :
  let m := set_object (prof_method_create_excluded h klass0 mid0) o in
  methods st !! p = Some m ->
  prof_get_method st self = Ok p ->
  parent_call_infos m = None /\ child_call_infos m = None /\
  excluded m = 1 /\
  (forall f e k i l,
     parent_call_infos (prof_method_create h f e k i l) = Some [] /\
     child_call_infos (prof_method_create h f e k i l) = Some []) /\
  prof_method_free h st p = Fault /\
  prof_method_callers st self = Fault /\
  prof_method_callees st self = Fault.
Proof.
  intros m Hp Hself.
  split; [done|]. split; [done|]. split; [done|]. split; [|split; [|split]].
  - intros f e k i l. unfold prof_method_create.
    destruct (negb _); [destruct f|]; done.
  - unfold prof_method_free, prof_method_ruby_gc_free, get_method.
    rewrite Hp. simpl.
    destruct (negb (o =? Qnil h)); simpl.
    + destruct (objects st !! o); simpl; [|done].
      by rewrite lookup_insert_eq.
    + by rewrite lookup_insert_eq.
  - unfold prof_method_callers. rewrite Hself. simpl.
    unfold get_method. by rewrite Hp.
  - unfold prof_method_callees. rewrite Hself. simpl.
    unfold get_method. by rewrite Hp.
Qed.

Lemma excluded_method_tables_unassigned_witness :
  prof_method_free example_host example_excluded 4200 = Fault /\
  prof_method_callers example_excluded 9100 = Fault /\
  prof_method_callees example_excluded 9100 = Fault.
Proof.
  pose proof (excluded_method_tables_unassigned example_host 1000 1201 9100
                example_excluded 4200 9100 eq_refl eq_refl) as H.
  tauto.
Defined.

(** ** Source owner resolution *)

Lemma prof_method_create_key (h : ruby_host) (f : option string)
    (event : Z) (klass0 : VALUE) (mid0 : ID) (line0 : Z) :
  mkey (prof_method_create h f event klass0 mid0 line0) = method_key h klass0 mid0.
Proof.
  unfold prof_method_create. destruct (negb _); [destruct f|]; done.
Qed.

Lemma prof_method_create_resolved (h : ruby_host) (f : option string)
    (event : Z) (klass0 : VALUE) (mid0 : ID) (line0 : Z) :
  resolved (prof_method_create h f event klass0 mid0 line0) = 0.
Proof.
  unfold prof_method_create. destruct (negb _); [destruct f|]; done.
Qed.

(** The walk stops at once on a module. *)
Lemma resolve_walk_module (fuel : nat) (h : ruby_host) (k : VALUE) (r : Z) :
  BUILTIN_TYPE h k = T_MODULE ->
  resolve_walk (S fuel) h k r = Some (k, r, 1%nat).
Proof.
  intros Hk. simpl. destruct (is_nil_klass h k); [done|]. by rewrite Hk.
Qed.

(** What happens to every method created with an inclusion proxy of a module
    [M] as its owner: [method_key] has already put [M] into the key, the
    resolution starts from the key and stops at [M] after one iteration, and
    the branch of the walk that sets [kModuleIncludee] is never taken. *)
Lemma resolve_source_klass_of_proxy (h : ruby_host) (f : option string)
    (event : Z) (proxy : VALUE) (mid0 : ID) (line0 : Z) (fuel : nat) :
  is_nil_klass h proxy = false ->
  BUILTIN_TYPE h proxy = T_ICLASS ->
  BUILTIN_TYPE h (RBASIC_klass h proxy) = T_MODULE ->
  let m := prof_method_create h f event proxy mid0 line0 in
  let M := RBASIC_klass h proxy in
  klass (mkey m) = M /\
  resolve_source_klass (S fuel) h m = Some (M, set_resolution m 0 M, 1%nat) /\
  relation (set_resolution m 0 M) = 0 /\
  RP_REL_GET (relation (set_resolution m 0 M)) (kModuleIncludee h) = 0.
Proof.
  intros Hnil Hproxy Hmod m M.
  assert (klass (mkey m) = M) as HM.
  { subst m M. rewrite prof_method_create_key, method_key_klass.
    unfold normalized_owner. by rewrite Hnil, Hproxy. }
  split; [done|]. split; [|done].
  unfold resolve_source_klass. subst m.
  rewrite prof_method_create_resolved. simpl negb. cbv iota.
  rewrite HM. by rewrite resolve_walk_module.
Qed.

(** C3. The walk of [resolve_source_klass] sets [kModuleIncludee] when it
    meets an inclusion proxy: started at the proxy 2104 of [Bar] it returns
    [Bar] with the flag set. A method is never resolved from its raw owner,
    though: [method_key] has replaced the proxy by [Bar] in the key, so
    [Foo#run] reached through 2104 resolves to [Bar] with the flag clear,
    with whatever fuel the walk is run. *)
Lemma resolve_of_proxy_without_includee_flag :
  let m := prof_method_create example_host (Some "app.rb") 8 2104 1201 12 in
  BUILTIN_TYPE example_host 2104 = T_ICLASS /\
  RBASIC_klass example_host 2104 = 2000 /\
  (exists rel, resolve_walk 2 example_host 2104 0 = Some (2000, rel, 2%nat) /\
               RP_REL_GET rel (kModuleIncludee example_host) <> 0) /\
  klass (mkey m) = 2000 /\
  (exists m', resolve_source_klass 1 example_host m = Some (2000, m', 1%nat) /\
              RP_REL_GET (relation m') (kModuleIncludee example_host) = 0) /\
  ~ (exists fuel owner m' n,
       resolve_source_klass fuel example_host m = Some (owner, m', n) /\
       RP_REL_GET (relation m') (kModuleIncludee example_host) <> 0).
Proof.
  intros m. split; [reflexivity|]. split; [reflexivity|]. split.
  { eexists. split; [reflexivity|]. vm_compute. discriminate. }
  split; [reflexivity|]. split.
  - eexists. split; reflexivity.
  - intros (fuel & owner & m' & n & Hres & Hflag).
    destruct fuel as [|fuel]; [discriminate|].
    vm_compute in Hres. injection Hres as <- <- <-. by apply Hflag.
Qed.

Lemma resolve_walk_terminates (h : ruby_host) (rank : VALUE -> nat) :
  (forall k k', resolve_next h k = Some k' -> (rank k' < rank k)%nat) ->
  forall fuel k r, (rank k < fuel)%nat ->
    exists k' r' n, resolve_walk fuel h k r = Some (k', r', n) /\ (1 <= n)%nat.
Proof.
  intros Hwf fuel. induction fuel as [|fuel IH]; intros k r Hlt; [lia|].
  assert (forall k'' r'', resolve_next h k = Some k'' ->
            exists k' r' n,
              match resolve_walk fuel h k'' r'' with
              | Some (k', r', n) => Some (k', r', S n)
              | None => None
              end = Some (k', r', n) /\ (1 <= n)%nat) as Hstep.
  { intros k'' r'' Hnext. apply Hwf in Hnext.
    destruct (IH k'' r'') as (k' & r' & n & -> & Hn); [lia|].
    exists k', r', (S n). split; [done|lia]. }
  simpl. unfold resolve_next in Hstep.
  destruct (is_nil_klass h k); [by exists k, r, 1%nat|].
  destruct (ruby_type_eqb (BUILTIN_TYPE h k) T_CLASS && FL_SINGLETON h k).
  - destruct (BUILTIN_TYPE h (rb_iv_get_attached h k)); simpl; by apply Hstep.
  - destruct (ruby_type_eqb (BUILTIN_TYPE h k) T_ICLASS); [by apply Hstep|].
    by exists k, r, 1%nat.
Qed.

(** X11. The relation flags are cumulative along the walk: a flag set in
    the relation a walk is started with is set in the relation it returns;
    each iteration continues with the relation built so far, so none clears
    a flag. *)
Lemma resolve_walk_cumulative (h : ruby_host) (fuel : nat) :
  forall k r k' r' n i,
    resolve_walk fuel h k r = Some (k', r', n) ->
    Z.testbit r i = true -> Z.testbit r' i = true.
Proof.
  induction fuel as [|fuel IH]; intros k r k' r' n i Hwalk Hi; [done|].
  simpl in Hwalk.
  assert (forall k0 off,
            match resolve_walk fuel h k0 (RP_REL_SET r off) with
            | Some (k1, r1, n1) => Some (k1, r1, S n1)
            | None => None
            end = Some (k', r', n) -> Z.testbit r' i = true) as Hstep.
  { intros k0 off Hs.
    destruct (resolve_walk fuel h k0 (RP_REL_SET r off))
      as [[[k1 r1] n1]|] eqn:Hw; [|done].
    injection Hs as <- <- <-.
    apply (IH _ _ _ _ _ _ Hw). by apply RP_REL_SET_keeps. }
  destruct (is_nil_klass h k); [by simplify_eq|].
  destruct (ruby_type_eqb (BUILTIN_TYPE h k) T_CLASS && FL_SINGLETON h k).
  - destruct (_ || _); [by eapply Hstep|].
    destruct (ruby_type_eqb _ T_OBJECT); by eapply Hstep.
  - destruct (ruby_type_eqb (BUILTIN_TYPE h k) T_ICLASS); [by eapply Hstep|].
    by simplify_eq.
Qed.

Example resolve_singleton_of_object :
  resolve_walk 2 example_host 3008 0 = Some (3000, 4, 2%nat) /\
  RP_REL_GET 4 (kObjectSingleton example_host) <> 0.
Proof. split; [reflexivity|discriminate]. Qed.

Example resolve_singleton_of_module :
  resolve_walk 2 example_host 5008 0 = Some (5000, 2, 2%nat) /\
  RP_REL_GET 2 (kModuleSingleton example_host) <> 0.
Proof. split; [reflexivity|discriminate]. Qed.

(** C8. On a host whose singleton and inclusion chains are finite, the first
    call on a method runs the walk (at least one iteration), sets [resolved]
    and stores the owner and the relation; from then on every call, with
    any fuel, returns the stored owner in zero iterations and leaves the
    method as it is. *)
Theorem resolve_source_klass_memoized (h : ruby_host) (rank : VALUE -> nat)
    (m : prof_method_t) (fuel : nat) :
  (forall k k', resolve_next h k = Some k' -> (rank k' < rank k)%nat) ->
  resolved m = 0 ->
  (rank (klass (mkey m)) < fuel)%nat ->
  exists owner rel n m',
    resolve_source_klass fuel h m = Some (owner, m', n) /\
    (1 <= n)%nat /\
    resolve_walk fuel h (klass (mkey m)) 0 = Some (owner, rel, n) /\
    m' = set_resolution m rel owner /\
    resolved m' = 1 /\ source_klass m' = owner /\ relation m' = rel /\
    forall fuel', resolve_source_klass fuel' h m' = Some (owner, m', 0%nat).
Proof.
  intros Hwf Hres Hfuel.
  destruct (resolve_walk_terminates h rank Hwf fuel (klass (mkey m)) 0 Hfuel)
    as (owner & rel & n & Hwalk & Hn).
  exists owner, rel, n, (set_resolution m rel owner).
  unfold resolve_source_klass at 1. rewrite Hres, Hwalk. simpl.
  repeat split; try done.
Qed.

Lemma resolve_source_klass_memoized_witness :
  exists owner rel n m',
    resolve_source_klass 2 example_host
      (prof_method_create example_host (Some "app.rb") 8 3008 1201 12)
    = Some (owner, m', n) /\
    (1 <= n)%nat /\
    resolve_walk 2 example_host 3008 0 = Some (owner, rel, n) /\
    m' = set_resolution
           (prof_method_create example_host (Some "app.rb") 8 3008 1201 12)
           rel owner /\
    resolved m' = 1 /\ source_klass m' = owner /\ relation m' = rel /\
    forall fuel', resolve_source_klass fuel' example_host m' = Some (owner, m', 0%nat).
Proof.
  apply (resolve_source_klass_memoized example_host example_rank
           (prof_method_create example_host (Some "app.rb") 8 3008 1201 12) 2).
  - intros k k' Hnext. unfold resolve_next, is_nil_klass in Hnext.
    simpl in Hnext. unfold example_rank. simpl.
    unfold example_type in *.
    repeat match type of Hnext with
           | context [Z.eqb k ?c] =>
               destruct (Z.eqb_spec k c); subst; simpl in Hnext;
               try discriminate; try (injection Hnext as <-; vm_compute; lia)
           end.
  - reflexivity.
  - vm_compute. lia.
Defined.

(** ** Calltree names *)

Lemma append_String (c : ascii) (s t : string) :
  String c s +:+ t = String c (s +:+ t).
Proof. reflexivity. Qed.

Lemma append_empty_r (s : string) : s +:+ "" = s.
Proof. induction s as [|c s IH]; [done|]. by rewrite append_String, IH. Qed.

Lemma append_assoc (s t u : string) : (s +:+ t) +:+ u = s +:+ t +:+ u.
Proof. induction s as [|c s IH]; [done|]. by rewrite !append_String, IH. Qed.

Lemma prefix_String (a b : ascii) (s1 s2 : string) :
  String.prefix (String a s1) (String b s2)
  = if ascii_dec a b then String.prefix s1 s2 else false.
Proof. reflexivity. Qed.

Lemma prefix_colons (c c' : ascii) (r : string) :
  String.prefix "::" (String c (String c' r))
  = Ascii.eqb c ":" && Ascii.eqb c' ":".
Proof.
  rewrite prefix_String. destruct (ascii_dec ":" c) as [<-|Hc].
  - rewrite prefix_String. destruct (ascii_dec ":" c') as [<-|Hc'].
    + by destruct r.
    + symmetry. apply andb_false_iff. right. apply Ascii.eqb_neq. congruence.
  - symmetry. apply andb_false_iff. left. apply Ascii.eqb_neq. congruence.
Qed.

Lemma split_fields_String (sep : string) (skip : nat) (c : ascii)
    (r : string) :
  split_fields sep skip (String c r)
  = match skip with
    | S k => split_fields sep k r
    | O =>
        if String.prefix sep (String c r)
        then EmptyString :: split_fields sep (String.length sep - 1) r
        else match split_fields sep 0 r with
             | f :: fs => String c f :: fs
             | [] => [String c EmptyString]
             end
    end.
Proof. reflexivity. Qed.

Lemma split_fields_cons (sep : string) (skip : nat) (s : string) :
  exists f fs, split_fields sep skip s = f :: fs.
Proof.
  revert skip. induction s as [|c s IH]; intros skip; [by eexists _, _|].
  rewrite split_fields_String. destruct skip as [|k]; [|by apply IH].
  destruct (String.prefix sep (String c s)); [by eexists _, _|].
  destruct (split_fields sep 0 s); by eexists _, _.
Qed.

Lemma split_colons_sep (r : string) :
  split_fields "::" 0 (String ":" (String ":" r))
  = EmptyString :: split_fields "::" 0 r.
Proof. by rewrite split_fields_String, prefix_colons, split_fields_String. Qed.

Lemma split_colons_char (c : ascii) (r : string) :
  String.prefix "::" (String c r) = false ->
  exists f fs, split_fields "::" 0 r = f :: fs /\
               split_fields "::" 0 (String c r) = String c f :: fs.
Proof.
  intros Hp. destruct (split_fields_cons "::" 0 r) as (f & fs & Hr).
  exists f, fs. split; [done|].
  by rewrite split_fields_String, Hp, Hr.
Qed.

Lemma rb_ary_join_cons (x y : string) (l : list string) (j : string) :
  rb_ary_join (x :: y :: l) j = x +:+ j +:+ rb_ary_join (y :: l) j.
Proof. reflexivity. Qed.

Lemma rb_ary_join_String (c : ascii) (f : string) (fs : list string)
    (j : string) :
  rb_ary_join (String c f :: fs) j = String c (rb_ary_join (f :: fs) j).
Proof. destruct fs; reflexivity. Qed.

(** A string of one character holds no separator. *)
Lemma prefix_colons_short (c : ascii) :
  String.prefix "::" (String c EmptyString) = false.
Proof. rewrite prefix_String. destruct (ascii_dec ":" c); done. Qed.

(** Joining the fields with ["/"] rewrites every separator. *)
Lemma join_split_fields (n : nat) :
  forall s, (String.length s <= n)%nat ->
    rb_ary_join (split_fields "::" 0 s) "/" = ns_to_path s.
Proof.
  induction n as [n IH] using lt_wf_ind. intros s Hlen.
  destruct s as [|c [|c' r']]; [done| |].
  - destruct (split_colons_char c "" (prefix_colons_short c))
      as (f & fs & Hr & ->).
    simpl in Hr. by injection Hr as <- <-.
  - destruct (Ascii.eqb c ":" && Ascii.eqb c' ":") eqn:Hcc.
    + apply andb_true_iff in Hcc as [->%Ascii.eqb_eq ->%Ascii.eqb_eq].
      rewrite split_colons_sep.
      destruct (split_fields_cons "::" 0 r') as (f & fs & Hr).
      rewrite Hr, rb_ary_join_cons, <- Hr.
      rewrite (IH (String.length r')); [done| |done]. simpl in Hlen. lia.
    + destruct (split_colons_char c (String c' r')) as (f & fs & Hr & ->).
      { by rewrite prefix_colons. }
      rewrite rb_ary_join_String, <- Hr.
      rewrite (IH (String.length (String c' r'))); [|simpl in *; lia|done].
      simpl. by rewrite Hcc.
Qed.

Lemma ends_with_sep_cons (c c' c'' : ascii) (r : string) :
  ends_with_sep (String c (String c' (String c'' r)))
  = ends_with_sep (String c' (String c'' r)).
Proof. reflexivity. Qed.

(** The last field is empty only for the empty string and for a string
    that ends with a separator. *)
Lemma split_fields_last_empty (n : nat) :
  forall s, (String.length s <= n)%nat ->
    last_field (split_fields "::" 0 s) = EmptyString ->
    s = EmptyString \/ ends_with_sep s = true.
Proof.
  induction n as [n IH] using lt_wf_ind. intros s Hlen Hlast.
  destruct s as [|c [|c' r']]; [by left| |].
  - destruct (split_colons_char c "" (prefix_colons_short c))
      as (f & fs & Hr & Heq).
    rewrite Heq in Hlast. simpl in Hr. injection Hr as <- <-. done.
  - right. destruct (Ascii.eqb c ":" && Ascii.eqb c' ":") eqn:Hcc.
    + apply andb_true_iff in Hcc as [->%Ascii.eqb_eq ->%Ascii.eqb_eq].
      rewrite split_colons_sep in Hlast.
      destruct (split_fields_cons "::" 0 r') as (f & fs & Hr).
      assert (last_field (split_fields "::" 0 r') = EmptyString) as Hl.
      { rewrite Hr in *. exact Hlast. }
      destruct (IH (String.length r') ltac:(simpl in Hlen; lia) r' ltac:(done) Hl)
        as [->|He]; [done|].
      destruct r' as [|a [|b r'']]; [done|done|].
      by rewrite !ends_with_sep_cons.
    + destruct (split_colons_char c (String c' r')) as (f & fs & Hr & Heq).
      { by rewrite prefix_colons. }
      rewrite Heq in Hlast.
      destruct fs as [|f' fs]; [done|].
      assert (last_field (split_fields "::" 0 (String c' r')) = EmptyString)
        as Hl.
      { rewrite Hr. exact Hlast. }
      destruct (IH (String.length (String c' r')) ltac:(simpl in *; lia)
                  (String c' r') ltac:(done) Hl) as [?|He]; [done|].
      destruct r' as [|b r'']; [|by rewrite ends_with_sep_cons].
      simpl in He. simpl. done.
Qed.

Lemma drop_trailing_empty_keep (l : list string) :
  last_field l <> EmptyString -> drop_trailing_empty l = l.
Proof.
  induction l as [|f fs IH]; [done|]. intros Hlast.
  destruct fs as [|f' fs].
  - simpl in *. destruct (String.eqb_spec f ""); done.
  - change (drop_trailing_empty (f :: f' :: fs))
      with (match drop_trailing_empty (f' :: fs) with
            | [] => if String.eqb f EmptyString then [] else [f]
            | fs' => f :: fs'
            end).
    rewrite IH; [done|]. exact Hlast.
Qed.

(** What [calltree_name] does to a qualified name. *)
Lemma join_split_ns_to_path (s : string) :
  ends_with_sep s = false ->
  rb_ary_join (rb_str_split s "::") "/" = ns_to_path s.
Proof.
  intros Hends. unfold rb_str_split.
  destruct (string_dec s "") as [->|Hne]; [done|].
  rewrite drop_trailing_empty_keep.
  - by apply (join_split_fields (String.length s)).
  - intros Hlast.
    destruct (split_fields_last_empty (String.length s) s ltac:(done) Hlast);
      congruence.
Qed.

Lemma calltree_name_calltreeName (h : ruby_host) (source_klass0 : VALUE)
    (relation0 : Z) (mid0 : ID) :
  ends_with_sep (rb_class_name h source_klass0) = false ->
  calltree_name h source_klass0 relation0 mid0
  = calltreeName h source_klass0 relation0 mid0.
Proof.
  intros Hname.
  unfold calltree_name, calltreeName, source_klass_name, method_name.
  rewrite !RP_REL_GET_testbit, !negb_involutive.
  assert (rb_ary_join
            (rb_str_split
               (if RTEST h source_klass0 then rb_class_name h source_klass0
                else "[global]") "::") "/"
          = if RTEST h source_klass0
            then ns_to_path (rb_class_name h source_klass0)
            else "[global]") as ->.
  { destruct (RTEST h source_klass0); [|done].
    by apply join_split_ns_to_path. }
  destruct (Z.testbit relation0 (kObjectSingleton h)),
    (Z.testbit relation0 (kModuleSingleton h));
    rewrite ?append_assoc; reflexivity.
Qed.



(** The accessor names the method after the owner the resolution returns,
    not after the owner of the key. *)
Lemma prof_calltree_name_of_resolved_owner (fuel : nat) (h : ruby_host)
    (st : mem) (self : VALUE) (p : ptr) (m m' : prof_method_t)
    (owner : VALUE) (n : nat) :
  prof_method_get st self = Ok p ->
  methods st !! p = Some m ->
  resolve_source_klass fuel h m = Some (owner, m', n) ->
  ends_with_sep (rb_class_name h owner) = false ->
  prof_calltree_name fuel h st self
  = Ok (calltreeName h owner (relation m') (mid (mkey m)), store_method st p m').
Proof.
  intros Hself Hp Hres Hname. unfold prof_calltree_name.
  rewrite Hself. simpl. unfold get_method. rewrite Hp. simpl. rewrite Hres.
  rewrite calltree_name_calltreeName by done.
  assert (mkey m' = mkey m) as ->; [|done].
  unfold resolve_source_klass in Hres.
  destruct (negb (resolved m =? 0)); [by simplify_eq|].
  destruct (resolve_walk fuel h (klass (mkey m)) 0) as [[[k rel] i]|];
    by simplify_eq.
Qed.

Example calltree_name_of_singleton :
  exists st,
    prof_calltree_name 2 example_host
      (Data_Wrap_Struct
         (store_method empty_mem 4096
            (prof_method_create example_host (Some "app.rb") 8 5008 1201 7))
         9000 4096) 9000
    = Ok ("A/B::^run", st).
Proof. eexists. reflexivity. Qed.

(** ** Access after the profile is freed *)

Lemma prof_method_free_inv (h : ruby_host) (st st' : mem) (p : ptr)
    (m : prof_method_t) :
  prof_method_free h st p = Ok st' ->
  methods st !! p = Some m ->
  methods st' = delete p (methods st) /\
  (object m <> Qnil h -> nulled st' (object m)) /\
  (forall o, nulled st o -> nulled st' o).
Proof.
  unfold prof_method_free, prof_method_ruby_gc_free, get_method.
  intros Hfree Hp. rewrite Hp in Hfree. simpl in Hfree.
  destruct (Z.eqb_spec (object m) (Qnil h)) as [Heq|Hne]; simpl in Hfree.
  - rewrite lookup_insert_eq in Hfree. simpl in Hfree.
    destruct (parent_call_infos m), (child_call_infos m); simplify_eq/=.
    split; [by rewrite delete_insert_eq|]. split; [done|]. done.
  - destruct (objects st !! object m) as [r|] eqn:Hobj; simplify_eq/=.
    rewrite lookup_insert_eq in Hfree. simpl in Hfree.
    destruct (parent_call_infos m), (child_call_infos m); simplify_eq/=.
    split; [by rewrite delete_insert_eq|]. split.
    + intros _. eexists. split; [apply lookup_insert_eq|done].
    + intros o (r' & Ho & Hr'). unfold nulled. simpl.
      destruct (decide (object m = o)) as [->|Hno].
      * eexists. split; [apply lookup_insert_eq|done].
      * exists r'. by rewrite lookup_insert_ne.
Qed.

Lemma method_table_free_nulled (h : ruby_host) (table : st_table ptr) :
  forall st st' o,
    method_table_free_iterator h st table = Ok st' ->
    nulled st o -> nulled st' o.
Proof.
  induction table as [|e table IH]; intros st st' o Hfree Ho; simpl in Hfree.
  - by simplify_eq.
  - destruct (prof_method_free h st (st_record e)) as [st1| | |] eqn:Hf;
      simplify_eq/=.
    apply (IH st1 st' o Hfree).
    unfold prof_method_free, prof_method_ruby_gc_free, get_method in Hf.
    destruct (methods st !! st_record e) as [m|] eqn:Hm; [|done].
    assert (prof_method_free h st (st_record e) = Ok st1) as Hf'.
    { unfold prof_method_free, prof_method_ruby_gc_free, get_method.
      by rewrite Hm. }
    by apply (prof_method_free_inv h st st1 (st_record e) m Hf' Hm).
Qed.

Lemma method_table_free_nulls (h : ruby_host) (table : st_table ptr) :
  forall st st' e m,
    method_table_free_iterator h st table = Ok st' ->
    In e table ->
    methods st !! st_record e = Some m ->
    object m <> Qnil h ->
    nulled st' (object m).
Proof.
  induction table as [|e0 table IH]; intros st st' e m Hfree Hin Hm Hobj;
    [done|].
  simpl in Hfree.
  destruct (prof_method_free h st (st_record e0)) as [st1| | |] eqn:Hf;
    simplify_eq/=.
  destruct (decide (st_record e0 = st_record e)) as [Heq|Hne].
  - rewrite Heq in Hf.
    apply (method_table_free_nulled h table st1 st' _ Hfree).
    destruct (prof_method_free_inv h st st1 (st_record e) m Hf Hm)
      as (_ & Hnull & _).
    by apply Hnull.
  - destruct Hin as [->|Hin]; [done|].
    apply (IH st1 st' e m Hfree Hin); [|done].
    destruct (methods st !! st_record e0) as [m0|] eqn:Hm0.
    + destruct (prof_method_free_inv h st st1 (st_record e0) m0 Hf Hm0)
        as (-> & _ & _).
      by rewrite lookup_delete_ne.
    + unfold prof_method_free, prof_method_ruby_gc_free, get_method in Hf.
      by rewrite Hm0 in Hf.
Qed.

(** Every read accessor checks the data pointer; [prof_method_dump] does
    not. *)
Lemma access_nulled (h : ruby_host) (fuel : nat) (st : mem) (self : VALUE) :
  nulled st self ->
  prof_method_callers st self = Raise already_freed /\
  prof_method_callees st self = Raise already_freed /\
  prof_method_line st self = Raise already_freed /\
  prof_method_source_file st self = Raise already_freed /\
  prof_method_klass st self = Raise already_freed /\
  prof_method_id st self = Raise already_freed /\
  prof_klass_name h st self = Raise already_freed /\
  prof_method_name h st self = Raise already_freed /\
  prof_full_name h st self = Raise already_freed /\
  prof_method_root st self = Raise already_freed /\
  prof_method_recursive st self = Raise already_freed /\
  prof_source_klass fuel h st self = Raise already_freed /\
  prof_calltree_name fuel h st self = Raise already_freed /\
  prof_method_dump st self = Fault.
Proof.
  intros (r & Hobj & Hdata).
  unfold prof_method_callers, prof_method_callees, prof_method_line,
    prof_method_source_file, prof_method_klass, prof_method_id,
    prof_klass_name, prof_method_name, prof_full_name, prof_method_root,
    prof_method_recursive, prof_source_klass, prof_calltree_name,
    prof_method_dump, prof_get_method, prof_method_get.
  rewrite Hobj. simpl. rewrite Hdata. simpl. repeat split; reflexivity.
Qed.

(** C2. Once the method table is freed, every read accessor called on the
    wrapper of one of its methods raises the "already freed" error; the
    dump alone dereferences the NULL data pointer instead. *)
Theorem access_after_method_table_free (h : ruby_host) (fuel : nat)
    (st st' : mem) (table : st_table ptr) (e : st_table_entry ptr)
    (m : prof_method_t) :
  method_table_free h st table = Ok st' ->
  In e table ->
  methods st !! st_record e = Some m ->
  object m <> Qnil h ->
  let self := object m in
  prof_method_callers st' self = Raise already_freed /\
  prof_method_callees st' self = Raise already_freed /\
  prof_method_line st' self = Raise already_freed /\
  prof_method_source_file st' self = Raise already_freed /\
  prof_method_klass st' self = Raise already_freed /\
  prof_method_id st' self = Raise already_freed /\
  prof_klass_name h st' self = Raise already_freed /\
  prof_method_name h st' self = Raise already_freed /\
  prof_full_name h st' self = Raise already_freed /\
  prof_method_root st' self = Raise already_freed /\
  prof_method_recursive st' self = Raise already_freed /\
  prof_source_klass fuel h st' self = Raise already_freed /\
  prof_calltree_name fuel h st' self = Raise already_freed /\
  prof_method_dump st' self = Fault.
Proof.
  intros Hfree Hin Hm Hobj self. apply access_nulled.
  by apply (method_table_free_nulls h table st st' e m).
Qed.

Lemma access_after_method_table_free_witness :
  exists st',
    method_table_free example_host example_profile example_table = Ok st' /\
    prof_method_line st' 9000 = Raise already_freed /\
    prof_method_dump st' 9000 = Fault.
Proof.
  destruct (method_table_free example_host example_profile example_table)
    as [st'| | |] eqn:Hfree; try (vm_compute in Hfree; discriminate).
  exists st'. split; [reflexivity|].
  pose proof (access_after_method_table_free example_host 1 example_profile st'
                example_table
                (Build_st_table_entry (key (mkey example_method)) (KeyOf 4096) 4096)
                (set_object example_method 9000) Hfree
                (or_introl eq_refl) eq_refl) as H.
  simpl in H. destruct H as (_ & _ & Hline & H); [vm_compute; discriminate|].
  split; [exact Hline|]. apply H.
Defined.

(** ** Dump and load *)

Lemma wrap64_signed64 (z : Z) : wrap64 (signed64 z) = wrap64 z.
Proof.
  unfold signed64. destruct (wrap64 z <? 2 ^ 63).
  - unfold wrap64. by rewrite Z.mod_mod.
  - unfold wrap64. replace (z mod 2 ^ 64 - 2 ^ 64)
      with (z mod 2 ^ 64 + (-1) * 2 ^ 64) by lia.
    by rewrite Z.mod_add, Z.mod_mod.
Qed.

Lemma signed64_range (z : Z) : - 2 ^ 63 <= signed64 z < 2 ^ 63.
Proof.
  unfold signed64, wrap64.
  pose proof (Z.mod_pos_bound z (2 ^ 64) eq_refl) as Hz.
  change (2 ^ 64) with 18446744073709551616 in *.
  change (2 ^ 63) with 9223372036854775808 in *.
  destruct (Z.ltb_spec (z mod 18446744073709551616) 9223372036854775808); lia.
Qed.

(** An [ID] survives [LL2NUM] and [NUM2LL]: the Integer fits a [long long],
    and read back as an [ID] it is the [ID] that was dumped. *)
Lemma mid_round_trip (i : ID) :
  0 <= i < 2 ^ 64 ->
  NUM2LL (LL2NUM i) = Ok (signed64 i) /\ wrap64 (signed64 i) = i.
Proof.
  intros Hi. split.
  - unfold NUM2LL, LL2NUM. pose proof (signed64_range i) as [Hlo Hhi].
    by rewrite (proj2 (Z.leb_le _ _) Hlo), (proj2 (Z.ltb_lt _ _) Hhi).
  - rewrite wrap64_signed64. unfold wrap64. by apply Z.mod_small.
Qed.

Lemma FIX2INT_ok (n : Z) : - 2 ^ 31 <= n < 2 ^ 31 -> FIX2INT n = Ok n.
Proof.
  intros [Hlo Hhi]. unfold FIX2INT.
  by rewrite (proj2 (Z.leb_le _ _) Hlo), (proj2 (Z.ltb_lt _ _) Hhi).
Qed.

(** The flag survives [INT2FIX], [FIX2INT] and the test against 0. *)
Lemma recursive_round_trip (b : bool) :
  FIX2INT (INT2FIX (Z.b2z b)) = Ok (Z.b2z b) /\ negb (Z.b2z b =? 0) = b.
Proof. by destruct b. Qed.

Lemma same_keys_store (h : ruby_host) (st : mem) (p : ptr)
    (m m' : prof_method_t) :
  methods st !! p = Some m -> mkey m' = mkey m ->
  same_keys h (store_method st p m') st.
Proof.
  intros Hp Hk [q|]; [|done]. simpl. unfold get_method, store_method. simpl.
  destruct (decide (p = q)) as [->|Hne].
  - rewrite lookup_insert_eq, Hp. simpl. by rewrite Hk.
  - by rewrite lookup_insert_ne.
Qed.

Lemma same_keys_ref_id (h : ruby_host) (st1 st2 : mem) (kr : key_ref) :
  same_keys h st1 st2 -> ref_id h st1 kr = ref_id h st2 kr.
Proof. intros H. unfold ref_id. by rewrite H. Qed.

Lemma same_keys_table_key_ids {V} (h : ruby_host) (st1 st2 : mem)
    (t : st_table V) :
  same_keys h st1 st2 -> table_key_ids h st1 t = table_key_ids h st2 t.
Proof.
  intros H. unfold table_key_ids. apply map_ext. intros e.
  by apply same_keys_ref_id.
Qed.

Lemma st_insert_entry_ext {V} (h : ruby_host) (st1 st2 : mem)
    (hash : st_index_t) (k : prof_method_key_t) (kr : key_ref) (v : V)
    (t : st_table V) :
  same_keys h st1 st2 ->
  st_insert_entry h st1 hash k kr v t = st_insert_entry h st2 hash k kr v t.
Proof.
  intros H. induction t as [|e t IH]; [done|]. simpl.
  unfold st_entry_matches. by rewrite H, IH.
Qed.

Lemma insert_all_ext (h : ruby_host) (st1 st2 : mem)
    (other : prof_call_info_t -> key_ref) (cs : list prof_call_info_t) :
  same_keys h st1 st2 ->
  forall t, insert_all h st1 other t cs = insert_all h st2 other t cs.
Proof.
  intros H. induction cs as [|c cs IH]; intros t; [done|]. simpl.
  unfold call_info_table_insert, st_insert. rewrite H.
  destruct (deref_key h st2 (other c)) as [k| | |]; simpl; try done.
  rewrite (st_insert_entry_ext h st1 st2) by done.
  destruct (st_insert_entry h st2 _ k (other c) c t); simpl; [apply IH|done..].
Qed.

Lemma store_method_id (st : mem) (p : ptr) (m : prof_method_t) :
  methods st !! p = Some m -> store_method st p m = st.
Proof.
  intros Hp. destruct st as [ms os]. unfold store_method. simpl in *.
  by rewrite insert_id.
Qed.

Lemma store_method_twice (st : mem) (p : ptr) (m1 m2 : prof_method_t) :
  store_method (store_method st p m1) p m2 = store_method st p m2.
Proof. unfold store_method. simpl. by rewrite insert_insert_eq. Qed.

Lemma set_parent_call_infos_id (m : prof_method_t)
    (t : st_table prof_call_info_t) :
  parent_call_infos m = Some t -> set_parent_call_infos m t = m.
Proof. destruct m. simpl. by intros ->. Qed.

Lemma set_child_call_infos_id (m : prof_method_t)
    (t : st_table prof_call_info_t) :
  child_call_infos m = Some t -> set_child_call_infos m t = m.
Proof. destruct m. simpl. by intros ->. Qed.

(** The first loop of [prof_method_load] inserts the callers into the
    parent table of the method and stores the table back. *)
Lemma load_callers_insert_all (h : ruby_host) (p : ptr)
    (cs : list prof_call_info_t) :
  forall st m t,
    methods st !! p = Some m ->
    parent_call_infos m = Some t ->
    load_callers h st p cs
    = t' ← insert_all h st caller_key_ref t cs;
      Ok (store_method st p (set_parent_call_infos m t')).
Proof.
  induction cs as [|c cs IH]; intros st m t Hp Ht.
  - simpl. by rewrite set_parent_call_infos_id, store_method_id.
  - simpl. unfold get_method. rewrite Hp. simpl. rewrite Ht. simpl.
    unfold prof_get_call_info. fold (caller_key_ref c).
    destruct (call_info_table_insert h st t (caller_key_ref c) c)
      as [t1| | |]; simpl; try done.
    rewrite (IH _ (set_parent_call_infos m t1) t1);
      [|by apply lookup_insert_eq|done].
    rewrite (insert_all_ext h _ st) by (by eapply same_keys_store).
    destruct (insert_all h st caller_key_ref t1 cs); simpl; try done.
    by rewrite store_method_twice.
Qed.

Lemma load_callees_insert_all (h : ruby_host) (p : ptr)
    (cs : list prof_call_info_t) :
  forall st m t,
    methods st !! p = Some m ->
    child_call_infos m = Some t ->
    load_callees h st p cs
    = t' ← insert_all h st callee_key_ref t cs;
      Ok (store_method st p (set_child_call_infos m t')).
Proof.
  induction cs as [|c cs IH]; intros st m t Hp Ht.
  - simpl. by rewrite set_child_call_infos_id, store_method_id.
  - simpl. unfold get_method. rewrite Hp. simpl. rewrite Ht. simpl.
    unfold prof_get_call_info. fold (callee_key_ref c).
    destruct (call_info_table_insert h st t (callee_key_ref c) c)
      as [t1| | |]; simpl; try done.
    rewrite (IH _ (set_child_call_infos m t1) t1);
      [|by apply lookup_insert_eq|done].
    rewrite (insert_all_ext h _ st) by (by eapply same_keys_store).
    destruct (insert_all h st callee_key_ref t1 cs); simpl; try done.
    by rewrite store_method_twice.
Qed.

(** Inserting under a readable key succeeds, and adds the identity of that
    key to the key set of the table, nothing else. *)
Lemma st_insert_entry_ok {V} (h : ruby_host) (st : mem) (hash : st_index_t)
    (k : prof_method_key_t) (kr : key_ref) (v : V) :
  deref_key h st kr = Ok k ->
  forall t, readable h st t ->
    exists t', st_insert_entry h st hash k kr v t = Ok t' /\
               readable h st t' /\
               forall x, In x (table_key_ids h st t')
                         <-> x = Some (key_id k) \/ In x (table_key_ids h st t).
Proof.
  intros Hk. induction t as [|e t IH]; intros Hread.
  - eexists. split; [reflexivity|]. split.
    + constructor; [by eexists|constructor].
    + intros x. simpl. unfold ref_id. rewrite Hk. intuition congruence.
  - apply Forall_cons in Hread as [[k' Hk'] Hread'].
    destruct (IH Hread') as (t' & Hins & Hread'' & Hids).
    simpl. unfold st_entry_matches. rewrite Hk'.
    destruct (st_hash e =? hash); simpl.
    + destruct (Z.eqb_spec (method_table_cmp k k') 0) as [Hcmp|Hcmp].
      * eexists. split; [reflexivity|]. split.
        { constructor; [by eexists|done]. }
        intros x. simpl. apply method_table_cmp_eq in Hcmp.
        unfold ref_id. rewrite Hk', Hcmp. intuition congruence.
      * rewrite Hins. simpl. eexists. split; [reflexivity|]. split.
        { constructor; [by eexists|done]. }
        intros x. simpl. rewrite Hids. intuition congruence.
    + rewrite Hins. simpl. eexists. split; [reflexivity|]. split.
      { constructor; [by eexists|done]. }
      intros x. simpl. rewrite Hids. intuition congruence.
Qed.

Lemma insert_all_ok (h : ruby_host) (st : mem)
    (other : prof_call_info_t -> key_ref) (cs : list prof_call_info_t) :
  Forall (fun c => exists i, ref_id h st (other c) = Some i) cs ->
  forall t, readable h st t ->
    exists t', insert_all h st other t cs = Ok t' /\
               readable h st t' /\
               forall x, In x (table_key_ids h st t')
                         <-> In x (table_key_ids h st t)
                             \/ In x (map (fun c => ref_id h st (other c)) cs).
Proof.
  induction cs as [|c cs IH]; intros Hcs t Hread.
  - exists t. split; [done|]. split; [done|]. simpl. intuition congruence.
  - apply Forall_cons in Hcs as [[i Hi] Hcs'].
    unfold ref_id in Hi.
    destruct (deref_key h st (other c)) as [k| | |] eqn:Hk; try done.
    destruct (st_insert_entry_ok h st (method_table_hash k) k (other c) c Hk
                t Hread) as (t1 & Hins & Hread1 & Hids1).
    destruct (IH Hcs' t1 Hread1) as (t' & Hall & Hread' & Hids').
    exists t'. simpl. unfold call_info_table_insert, st_insert.
    rewrite Hk. simpl. rewrite Hins. simpl. split; [done|]. split; [done|].
    intros x. rewrite Hids', Hids1.
    assert (ref_id h st (other c) = Some (key_id k)) as ->.
    { unfold ref_id. by rewrite Hk. }
    intuition congruence.
Qed.

Lemma prof_method_dump_ok (st : mem) (self : VALUE) (p : ptr)
    (m : prof_method_t) (tp tc : st_table prof_call_info_t) :
  prof_get_method st self = Ok p ->
  methods st !! p = Some m ->
  parent_call_infos m = Some tp ->
  child_call_infos m = Some tc ->
  prof_method_dump st self
  = Ok {| dump_klass := klass (mkey m);
          dump_mid := LL2NUM (mid (mkey m));
          dump_recursive := Z.b2z (recursive m);
          dump_source_file := source_file m;
          dump_line := line m;
          dump_callers := map st_record tp;
          dump_callees := map st_record tc |}.
Proof.
  intros Hself Hp Htp Htc.
  unfold prof_method_dump, prof_method_callers, prof_method_callees.
  rewrite Hself. unfold prof_get_method in Hself.
  destruct (objects st !! self) as [r|]; [|done]. simpl in *.
  destruct (data r) as [q|]; [|done]. injection Hself as ->. simpl.
  unfold get_method. rewrite Hp. simpl. by rewrite Htp, Htc.
Qed.

(** The fields of a freshly allocated method once [prof_method_load] has
    assigned the key, the source information and the recursion flag. *)
Lemma loaded_fields (h : ruby_host) (sf : option string) (self' : VALUE)
    (k : prof_method_key_t) (file : option string) (ln : Z) (rec : bool) :
  let m1 :=
    set_recursive
      (prof_method_set_source_info
         (set_key (set_object (prof_method_create h sf 0 (Qnil h) 0 0) self') k)
         file ln) rec in
  mkey m1 = k /\ root m1 = Some false /\ excluded m1 = 0 /\
  recursive m1 = rec /\ source_file m1 = file /\
  line m1 = match file with Some _ => ln | None => 0 end /\
  parent_call_infos m1 = Some [] /\ child_call_infos m1 = Some [].
Proof.
  unfold prof_method_create.
  destruct (negb (0 =? RUBY_EVENT_C_CALL h)), sf, file; simpl; done.
Qed.

Lemma c_source_file_ok (f : option string) :
  c_string f -> c_source_file f = Ok f.
Proof.
  intros Hf. destruct f as [s|]; [|done].
  unfold c_source_file, StringValueCStr. by rewrite (Hf s eq_refl).
Qed.

Lemma c_source_file_inv (f g : option string) :
  c_source_file f = Ok g -> g = f /\ c_string f.
Proof.
  unfold c_source_file, StringValueCStr, c_string.
  destruct f as [s|]; [|intros [= <-]; by split].
  destruct (has_nul s) eqn:Hs; simpl; [done|]. intros [= <-].
  split; [done|]. by intros s' [= <-].
Qed.

Lemma prof_method_load_allocated (h : ruby_host) (sf : option string)
    (st : mem) (p' : ptr) (self' : VALUE) (d : method_dump)
    (mid_ll ln rc : Z) :
  NUM2LL (dump_mid d) = Ok mid_ll ->
  FIX2INT (dump_line d) = Ok ln ->
  c_string (dump_source_file d) ->
  FIX2INT (dump_recursive d) = Ok rc ->
  prof_method_load h (prof_method_allocate h sf st p' self') self' d
  = let m1 :=
      set_recursive
        (prof_method_set_source_info
           (set_key (set_object (prof_method_create h sf 0 (Qnil h) 0 0) self')
              (method_key h (dump_klass d) (wrap64 mid_ll)))
           (dump_source_file d) ln)
        (negb (rc =? 0)) in
    st2 ← load_callers h
            (store_method (prof_method_allocate h sf st p' self') p' m1) p'
            (dump_callers d);
    load_callees h st2 p' (dump_callees d).
Proof.
  intros Hmid Hln Hsf Hrc.
  unfold prof_method_load, prof_method_allocate, Data_Wrap_Struct. simpl.
  rewrite lookup_insert_eq. simpl. rewrite Hmid. simpl.
  unfold get_method, store_method. simpl.
  rewrite lookup_insert_eq. simpl. rewrite Hln. simpl.
  rewrite (c_source_file_ok _ Hsf). simpl. rewrite Hrc.
  reflexivity.
Qed.

(** A key readable before the allocation of [p'] reads the same in any
    memory that differs from the old one at [p'] only. *)
Lemma ref_id_preserved (h : ruby_host) (st s : mem) (p' : ptr)
    (kr : key_ref) (i : VALUE * ID) :
  methods st !! p' = None ->
  (forall q, q <> p' -> methods s !! q = methods st !! q) ->
  ref_id h st kr = Some i -> ref_id h s kr = Some i.
Proof.
  intros Hfresh Hext. destruct kr as [q|]; [|done].
  unfold ref_id. simpl. unfold get_method.
  destruct (decide (q = p')) as [->|Hne]; [by rewrite Hfresh|].
  by rewrite Hext.
Qed.

Lemma edge_keyed_by_ids (h : ruby_host) (st s : mem)
    (other : prof_call_info_t -> key_ref) (t : st_table prof_call_info_t) :
  (forall kr i, ref_id h st kr = Some i -> ref_id h s kr = Some i) ->
  edge_keyed_by h st other t ->
  Forall (fun c => exists i, ref_id h s (other c) = Some i) (map st_record t) /\
  map (fun c => ref_id h s (other c)) (map st_record t) = table_key_ids h st t.
Proof.
  intros Hpres Hkeyed. induction Hkeyed as [|e t (i & Hkey & Hother) _ [IH1 IH2]].
  - split; [constructor|done].
  - simpl. split.
    + constructor; [|done]. exists i. by apply Hpres.
    + by rewrite IH2, (Hpres _ _ Hother), Hkey.
Qed.

(** C4 (as the code has it). Dumping a method and loading the record into a
    newly allocated method gives a method with the same key identity, the
    same recursion flag, source file and line, and with caller and callee
    key sets equal to the original's, a caller edge without parent sitting
    under the blank key; the root and excluded flags are not part of the
    record: the loaded method has them cleared. The original's edges are
    keyed by the key of their other endpoint, its key holds a normalized
    owner, its line is an [int], its source file a C string, and it has
    line 0 when it has no source file. *)
Theorem dump_load_round_trip (h : ruby_host) (sf : option string) (st : mem)
    (self : VALUE) (p : ptr) (m : prof_method_t)
    (tp tc : st_table prof_call_info_t) (p' : ptr) (self' : VALUE) :
  prof_get_method st self = Ok p ->
  methods st !! p = Some m ->
  parent_call_infos m = Some tp ->
  child_call_infos m = Some tc ->
  edge_keyed_by h st caller_key_ref tp ->
  edge_keyed_by h st callee_key_ref tc ->
  normalized_owner h (klass (mkey m)) = klass (mkey m) ->
  0 <= mid (mkey m) < 2 ^ 64 ->
  - 2 ^ 31 <= line m < 2 ^ 31 ->
  c_string (source_file m) ->
  (source_file m = None -> line m = 0) ->
  methods st !! p' = None ->
  exists d st' m' tp' tc',
    prof_method_dump st self = Ok d /\
    prof_method_load h (prof_method_allocate h sf st p' self') self' d = Ok st' /\
    methods st' !! p' = Some m' /\
    key_id (mkey m') = key_id (mkey m) /\
    method_table_cmp (mkey m') (mkey m) = 0 /\
    recursive m' = recursive m /\
    source_file m' = source_file m /\
    line m' = line m /\
    root m' = Some false /\
    excluded m' = 0 /\
    parent_call_infos m' = Some tp' /\
    child_call_infos m' = Some tc' /\
    (forall x, In x (table_key_ids h st' tp') <-> In x (table_key_ids h st tp)) /\
    (forall x, In x (table_key_ids h st' tc') <-> In x (table_key_ids h st tc)) /\
    (forall c, In c (dump_callers d) -> parent c = None ->
               In (Some (key_id (blank_key h))) (table_key_ids h st' tp')).
Proof.
  intros Hself Hp Htp Htc Hkp Hkc Hnorm Hmid Hint Hcstr Hline Hfresh.
  pose proof (prof_method_dump_ok st self p m tp tc Hself Hp Htp Htc) as Hdump.
  set (d := Build_method_dump _ _ _ _ _ _ _) in Hdump.
  set (k := method_key h (klass (mkey m)) (mid (mkey m))).
  destruct (loaded_fields h sf self' k (source_file m) (line m) (recursive m))
    as (Hk1 & Hroot & Hexcl & Hrec & Hfile & Hln & Htp1 & Htc1).
  set (m1 := set_recursive _ _) in *.
  set (sa := prof_method_allocate h sf st p' self').
  set (s2 := store_method sa p' m1).
  assert (methods s2 !! p' = Some m1) as Hs2 by apply lookup_insert_eq.
  assert (forall q, q <> p' -> methods s2 !! q = methods st !! q) as Hext.
  { intros q Hq. unfold s2, sa, store_method, prof_method_allocate,
      Data_Wrap_Struct. simpl. by rewrite !lookup_insert_ne. }
  assert (forall kr i, ref_id h st kr = Some i -> ref_id h s2 kr = Some i)
    as Hpres by (intros kr i; by apply (ref_id_preserved h st s2 p')).
  destruct (edge_keyed_by_ids h st s2 caller_key_ref tp Hpres Hkp)
    as [Hrp Hmp].
  destruct (edge_keyed_by_ids h st s2 callee_key_ref tc Hpres Hkc)
    as [Hrc Hmc].
  destruct (insert_all_ok h s2 caller_key_ref (map st_record tp) Hrp []
              (Forall_nil_2 _)) as (tp' & Hinsp & _ & Hidsp).
  destruct (insert_all_ok h s2 callee_key_ref (map st_record tc) Hrc []
              (Forall_nil_2 _)) as (tc' & Hinsc & _ & Hidsc).
  set (m2 := set_parent_call_infos m1 tp').
  set (m3 := set_child_call_infos m2 tc').
  assert (same_keys h (store_method s2 p' m2) s2) as Hsame2
      by (by apply (same_keys_store h s2 p' m1 m2)).
  assert (same_keys h (store_method s2 p' m3) s2) as Hsame3
      by (by apply (same_keys_store h s2 p' m1 m3)).
  assert (prof_method_load h sa self' d = Ok (store_method s2 p' m3)) as Hload.
  { destruct (mid_round_trip (mid (mkey m)) Hmid) as [Hll Hwrap].
    destruct (recursive_round_trip (recursive m)) as [Hfix Hflag].
    unfold sa.
    rewrite (prof_method_load_allocated h sf st p' self' d
               (signed64 (mid (mkey m))) (line m) (Z.b2z (recursive m)) Hll
               (FIX2INT_ok _ Hint) Hcstr Hfix).
    cbv zeta. unfold d.
    cbn [dump_klass dump_mid dump_recursive dump_source_file dump_line
         dump_callers dump_callees].
    rewrite Hwrap, Hflag.
    rewrite (load_callers_insert_all h p' _ s2 m1 []) by done.
    rewrite Hinsp. simpl.
    rewrite (load_callees_insert_all h p' _ (store_method s2 p' m2) m2 []);
      [|by apply lookup_insert_eq|done].
    rewrite (insert_all_ext h _ s2) by done.
    rewrite Hinsc. simpl. by rewrite store_method_twice. }
  assert (key_id (mkey m3) = key_id (mkey m)) as Hkid.
  { change (mkey m3) with (mkey m1). rewrite Hk1. unfold k, key_id.
    by rewrite method_key_klass, method_key_mid, Hnorm. }
  exists d, (store_method s2 p' m3), m3, tp', tc'.
  split; [done|]. split; [done|]. split; [by apply lookup_insert_eq|].
  split; [done|]. split; [by apply method_table_cmp_eq|].
  split; [done|]. split; [done|]. split.
  { change (line m3) with (line m1). rewrite Hln.
    destruct (source_file m) eqn:Hsf; [done|]. symmetry. by apply Hline. }
  split; [done|]. split; [done|]. split; [done|]. split; [done|].
  rewrite !(same_keys_table_key_ids h (store_method s2 p' m3) s2) by done.
  split; [|split].
  - intros x. rewrite Hidsp, Hmp. simpl. tauto.
  - intros x. rewrite Hidsc, Hmc. simpl. tauto.
  - intros c Hc Hnone. apply Hidsp. right.
    apply (in_map (fun c => ref_id h s2 (caller_key_ref c))) in Hc.
    unfold caller_key_ref at 1 in Hc. by rewrite Hnone in Hc.
Qed.

Lemma dump_load_round_trip_witness :
  exists d st' m' tp' tc',
    prof_method_dump example_graph 9000 = Ok d /\
    prof_method_load example_host
      (prof_method_allocate example_host (Some "lib.rb") example_graph 4112 9008)
      9008 d = Ok st' /\
    methods st' !! 4112 = Some m' /\
    key_id (mkey m') = key_id (mkey example_root) /\
    method_table_cmp (mkey m') (mkey example_root) = 0 /\
    recursive m' = recursive example_root /\
    source_file m' = source_file example_root /\
    line m' = line example_root /\
    root m' = Some false /\
    excluded m' = 0 /\
    parent_call_infos m' = Some tp' /\
    child_call_infos m' = Some tc' /\
    (forall x, In x (table_key_ids example_host st' tp')
               <-> In x (table_key_ids example_host example_graph
                           [Build_st_table_entry (key (blank_key example_host))
                              BlankKey example_root_edge])) /\
    (forall x, In x (table_key_ids example_host st' tc')
               <-> In x (table_key_ids example_host example_graph
                           [Build_st_table_entry (key (mkey example_callee))
                              (KeyOf 4104) example_callee_edge])) /\
    (forall c, In c (dump_callers d) -> parent c = None ->
               In (Some (key_id (blank_key example_host)))
                  (table_key_ids example_host st' tp')).
Proof.
  apply (dump_load_round_trip example_host (Some "lib.rb") example_graph 9000
           4096 example_root _ _ 4112 9008).
  - reflexivity.
  - reflexivity.
  - reflexivity.
  - reflexivity.
  - constructor; [|constructor]. eexists. split; reflexivity.
  - constructor; [|constructor]. eexists. split; reflexivity.
  - reflexivity.
  - vm_compute. split; [discriminate|reflexivity].
  - vm_compute. split; [discriminate|reflexivity].
  - intros s [= <-]. reflexivity.
  - discriminate.
  - reflexivity.
Defined.

(** C4, refuted as stated: the root method of [example_graph], dumped and
    loaded into a newly allocated method, is no longer a root. *)
Lemma dump_load_clears_root :
  exists d st' m',
    methods example_graph !! 4096 = Some example_root /\
    root example_root = Some true /\
    prof_method_dump example_graph 9000 = Ok d /\
    prof_method_load example_host
      (prof_method_allocate example_host (Some "lib.rb") example_graph 4112 9008)
      9008 d = Ok st' /\
    methods st' !! 4112 = Some m' /\
    root m' = Some false /\
    root m' <> root example_root.
Proof.
  do 3 eexists. split; [reflexivity|]. split; [reflexivity|].
  split; [reflexivity|]. split; [reflexivity|]. split; [reflexivity|].
  split; [reflexivity|]. discriminate.
Qed.

(** * Further properties of the code *)

(** ** The method table *)

Lemma method_table_cmp_refl (k : prof_method_key_t) : method_table_cmp k k = 0.
Proof. by apply method_table_cmp_eq. Qed.

Lemma st_insert_entry_lookup {V} (h : ruby_host) (st : mem)
    (k : prof_method_key_t) (kr : key_ref) (v : V) :
  deref_key h st kr = Ok k ->
  forall t t',
    st_insert_entry h st (method_table_hash k) k kr v t = Ok t' ->
    st_lookup h st t' k = Ok (Some v).
Proof.
  intros Hk. induction t as [|e t IH]; intros t' Hins; simpl in Hins.
  - injection Hins as <-. simpl. unfold st_entry_matches. simpl.
    rewrite Z.eqb_refl, Hk. simpl. by rewrite method_table_cmp_refl.
  - destruct (st_entry_matches h st (method_table_hash k) k e)
      as [[]| | |] eqn:Hm; simpl in Hins; try done.
    + injection Hins as <-. simpl.
      unfold st_entry_matches in *. simpl. by rewrite Hm.
    + destruct (st_insert_entry h st (method_table_hash k) k kr v t)
        as [t''| | |]; simpl in Hins; try done.
      injection Hins as <-. simpl. rewrite Hm. simpl. by apply IH.
Qed.

(** X1. A method inserted under its own key is found again under that key,
    whether the insertion added an entry or replaced the value of one. *)
Theorem method_table_insert_lookup (h : ruby_host) (st : mem)
    (table table' : st_table ptr) (p : ptr) (m : prof_method_t) (val : ptr) :
  methods st !! p = Some m ->
  method_table_insert h st table (KeyOf p) val = Ok table' ->
  method_table_lookup h st table' (mkey m) = Ok (Some val).
Proof.
  intros Hp Hins. unfold method_table_insert, st_insert in Hins.
  assert (deref_key h st (KeyOf p) = Ok (mkey m)) as Hk.
  { simpl. unfold get_method. by rewrite Hp. }
  rewrite Hk in Hins. simpl in Hins.
  by apply (st_insert_entry_lookup h st (mkey m) (KeyOf p) val Hk table).
Qed.

Lemma method_table_insert_lookup_witness :
  method_table_lookup example_host example_profile example_table
    (mkey (set_object example_method 9000)) = Ok (Some 4096).
Proof.
  apply (method_table_insert_lookup example_host example_profile []
           example_table 4096 (set_object example_method 9000) 4096);
    reflexivity.
Defined.

(** X2. Looking up a key whose identity no entry of a readable table has
    answers "absent" (no exception, no fault). *)
Theorem method_table_lookup_miss (h : ruby_host) (st : mem)
    (table : st_table ptr) (k : prof_method_key_t) :
  readable h st table ->
  (forall e, In e table -> ref_id h st (st_key e) <> Some (key_id k)) ->
  method_table_lookup h st table k = Ok None.
Proof.
  unfold method_table_lookup. induction table as [|e t IH];
    intros Hread Hmiss; [done|].
  apply Forall_cons in Hread as [[k' Hk'] Hread]. simpl.
  unfold st_entry_matches. rewrite Hk'.
  assert ((method_table_cmp k k' =? 0) = false) as Hcmp.
  { apply Z.eqb_neq. intros Hc. apply method_table_cmp_eq in Hc.
    apply (Hmiss e (or_introl eq_refl)). unfold ref_id. by rewrite Hk', Hc. }
  destruct (st_hash e =? method_table_hash k); simpl; rewrite ?Hcmp;
    apply IH; try done; intros e' He'; apply Hmiss; by right.
Qed.

Lemma method_table_lookup_miss_witness :
  method_table_lookup example_host example_profile example_table
    (method_key example_host 3000 1300) = Ok None.
Proof.
  apply (method_table_lookup_miss example_host example_profile example_table).
  - constructor; [|constructor]. eexists. reflexivity.
  - intros e [<-|[]]. vm_compute. discriminate.
Defined.

Lemma st_insert_entry_other {V} (h : ruby_host) (st : mem)
    (hash : st_index_t) (k k' : prof_method_key_t) (kr : key_ref) (v : V) :
  deref_key h st kr = Ok k ->
  key_id k' <> key_id k ->
  forall t t',
    st_insert_entry h st hash k kr v t = Ok t' ->
    st_lookup h st t' k' = st_lookup h st t k'.
Proof.
  intros Hk Hne. induction t as [|e t IH]; intros t' Hins; simpl in Hins.
  - injection Hins as <-. simpl. unfold st_entry_matches. simpl.
    destruct (hash =? method_table_hash k'); [|done]. rewrite Hk. simpl.
    destruct (Z.eqb_spec (method_table_cmp k' k) 0) as [Hc|Hc]; [|done].
    by apply method_table_cmp_eq in Hc.
  - destruct (st_entry_matches h st hash k e) as [[]| | |] eqn:Hm;
      simpl in Hins; try done.
    + injection Hins as <-. simpl.
      assert (st_entry_matches h st (method_table_hash k') k' e <> Ok true)
        as Hno.
      { unfold st_entry_matches in *.
        destruct (st_hash e =? hash); [|done].
        destruct (st_hash e =? method_table_hash k'); [|done].
        destruct (deref_key h st (st_key e)) as [ke| | |]; try done.
        simpl in *. intros Hyes.
        injection Hm as Hm. injection Hyes as Hyes.
        apply Z.eqb_eq, method_table_cmp_eq in Hm, Hyes. congruence. }
      unfold st_entry_matches in *. simpl.
      destruct (st_hash e =? method_table_hash k'); [|done].
      destruct (deref_key h st (st_key e)) as [ke| | |]; try done.
      simpl in *. destruct (method_table_cmp k' ke =? 0); [done|done].
    + destruct (st_insert_entry h st hash k kr v t) as [t''| | |];
        simpl in Hins; try done.
      injection Hins as <-. simpl. by rewrite (IH t'').
Qed.

(** X3. An insertion changes what a lookup under a key of another identity
    answers in no way. *)
Theorem method_table_insert_other (h : ruby_host) (st : mem)
    (table table' : st_table ptr) (kr : key_ref) (k k' : prof_method_key_t)
    (val : ptr) :
  deref_key h st kr = Ok k ->
  key_id k' <> key_id k ->
  method_table_insert h st table kr val = Ok table' ->
  method_table_lookup h st table' k' = method_table_lookup h st table k'.
Proof.
  intros Hk Hne Hins. unfold method_table_insert, st_insert in Hins.
  rewrite Hk in Hins. simpl in Hins.
  by apply (st_insert_entry_other h st (method_table_hash k) k k' kr val Hk
              Hne table).
Qed.

Lemma method_table_insert_other_witness :
  method_table_lookup example_host example_graph
    [Build_st_table_entry (key (mkey example_callee)) (KeyOf 4104) 4104]
    (method_key example_host 1000 1201)
  = method_table_lookup example_host example_graph []
      (method_key example_host 1000 1201).
Proof.
  apply (method_table_insert_other example_host example_graph [] _
           (KeyOf 4104) (mkey example_callee)
           (method_key example_host 1000 1201) 4104 eq_refl);
    [vm_compute; discriminate | reflexivity].
Defined.

Lemma st_insert_entry_distinct {V} (h : ruby_host) (st : mem)
    (hash : st_index_t) (k : prof_method_key_t) (kr : key_ref) (v : V) :
  deref_key h st kr = Ok k ->
  forall t t',
    st_insert_entry h st hash k kr v t = Ok t' ->
    (forall x, In x (map (entry_id h st) t') ->
               x = (hash, Some (key_id k)) \/ In x (map (entry_id h st) t)) /\
    (distinct_keys h st t -> distinct_keys h st t').
Proof.
  intros Hk. unfold distinct_keys.
  induction t as [|e t IH]; intros t' Hins; simpl in Hins.
  - injection Hins as <-. simpl. unfold entry_id, ref_id. simpl. rewrite Hk.
    split; [intuition congruence|].
    intros _. constructor; [simpl; tauto|constructor].
  - destruct (st_entry_matches h st hash k e) as [[]| | |] eqn:Hm;
      simpl in Hins; try done.
    + injection Hins as <-.
      change (map (entry_id h st)
                (Build_st_table_entry (st_hash e) (st_key e) v :: t))
        with (map (entry_id h st) (e :: t)).
      split; [tauto|done].
    + destruct (st_insert_entry h st hash k kr v t) as [t''| | |];
        simpl in Hins; try done.
      injection Hins as <-. destruct (IH t'' eq_refl) as [Hin Hnd]. simpl.
      split; [intros x [?|?%Hin]; tauto|].
      intros [Hnotin Hnodup]%List.NoDup_cons_iff. constructor; [|by apply Hnd].
      intros [Heq|?]%Hin; [|done].
      unfold st_entry_matches, entry_id, ref_id in *.
      injection Heq as Hh Hid. rewrite Hh, Z.eqb_refl in Hm.
      destruct (deref_key h st (st_key e)) as [ke| | |]; try done.
      simpl in Hm. injection Hm as Hm. apply Z.eqb_neq in Hm. apply Hm.
      apply method_table_cmp_eq. congruence.
Qed.

Lemma st_entry_matches_id {V} (h : ruby_host) (st : mem) (hash : st_index_t)
    (k : prof_method_key_t) (e : st_table_entry V) (b : bool) :
  st_entry_matches h st hash k e = Ok b ->
  b = true <-> entry_id h st e = (hash, Some (key_id k)).
Proof.
  unfold st_entry_matches, entry_id, ref_id.
  destruct (Z.eqb_spec (st_hash e) hash) as [Hh|Hh].
  - destruct (deref_key h st (st_key e)) as [ke| | |]; simpl; try done.
    intros [= <-]. rewrite Hh. split.
    + intros Hc%Z.eqb_eq%method_table_cmp_eq. by rewrite Hc.
    + intros [= Hid Hmid]. apply Z.eqb_eq, method_table_cmp_eq.
      unfold key_id. congruence.
  - intros [= <-]. split; [done|]. intros [= Heq _]. done.
Qed.

(** What an insertion does to the entries: it replaces the value of the
    first entry that answers to the key, or appends an entry when none
    does. *)
Lemma st_insert_entry_shape {V} (h : ruby_host) (st : mem)
    (hash : st_index_t) (k : prof_method_key_t) (kr : key_ref) (v : V) :
  forall t t',
    st_insert_entry h st hash k kr v t = Ok t' ->
    (exists t1 e t2,
       t = (t1 ++ e :: t2)%list /\
       t' = (t1 ++ Build_st_table_entry (st_hash e) (st_key e) v :: t2)%list /\
       entry_id h st e = (hash, Some (key_id k)) /\
       forall e0, In e0 t1 -> entry_id h st e0 <> (hash, Some (key_id k)))
    \/ (t' = (t ++ [Build_st_table_entry hash kr v])%list /\
        forall e0, In e0 t -> entry_id h st e0 <> (hash, Some (key_id k))).
Proof.
  induction t as [|e t IH]; intros t' Hins; simpl in Hins.
  - injection Hins as <-. right. split; [done|]. by intros e0 [].
  - destruct (st_entry_matches h st hash k e) as [b| | |] eqn:Hm;
      simpl in Hins; try done.
    pose proof (st_entry_matches_id h st hash k e b Hm) as Hid.
    destruct b.
    + injection Hins as <-. left. exists [], e, t.
      split; [done|]. split; [done|]. split; [by apply Hid|]. by intros e0 [].
    + assert (entry_id h st e <> (hash, Some (key_id k))) as Hne.
      { intros Heq. by apply Hid in Heq. }
      destruct (st_insert_entry h st hash k kr v t) as [t''| | |];
        simpl in Hins; try done.
      injection Hins as <-.
      destruct (IH t'' eq_refl)
        as [(t1 & e1 & t2 & -> & -> & He1 & Ht1)|[-> Hnone]].
      * left. exists (e :: t1), e1, t2.
        split; [done|]. split; [done|]. split; [done|].
        intros e0 [<-|He0]; [done|by apply Ht1].
      * right. split; [done|]. intros e0 [<-|He0]; [done|by apply Hnone].
Qed.

(** X4. An insertion replaces the value of the one entry that answers to
    the key, all other entries staying as and where they are, or, when no
    entry answers to it, appends one entry with the key, its hash and the
    value; either way the entries stay pairwise distinct for lookups. *)
Theorem method_table_insert_distinct (h : ruby_host) (st : mem)
    (table table' : st_table ptr) (kr : key_ref) (k : prof_method_key_t)
    (val : ptr) :
  deref_key h st kr = Ok k ->
  distinct_keys h st table ->
  method_table_insert h st table kr val = Ok table' ->
  distinct_keys h st table' /\
  ((exists t1 e t2,
      table = (t1 ++ e :: t2)%list /\
      table' = (t1 ++ Build_st_table_entry (st_hash e) (st_key e) val :: t2)%list /\
      entry_id h st e = (method_table_hash k, Some (key_id k)) /\
      forall e0, In e0 t1 \/ In e0 t2 ->
                 entry_id h st e0 <> (method_table_hash k, Some (key_id k)))
   \/ (table' = (table ++ [Build_st_table_entry (method_table_hash k) kr val])%list /\
       forall e0, In e0 table ->
                  entry_id h st e0 <> (method_table_hash k, Some (key_id k)))).
Proof.
  intros Hk Hd Hins. unfold method_table_insert, st_insert in Hins.
  rewrite Hk in Hins. simpl in Hins.
  split.
  - by apply (st_insert_entry_distinct h st _ k kr val Hk table table' Hins).
  - destruct (st_insert_entry_shape h st _ k kr val table table' Hins)
      as [(t1 & e & t2 & -> & -> & He & Ht1)|[-> Hnone]]; [left|by right].
    exists t1, e, t2. split; [done|]. split; [done|]. split; [done|].
    intros e0 [He0|He0]; [by apply Ht1|].
    intros Heq. unfold distinct_keys in Hd.
    rewrite map_app in Hd. apply List.NoDup_remove_2 in Hd. apply Hd.
    apply in_or_app. right. rewrite He, <- Heq.
    exact (in_map (entry_id h st) t2 e0 He0).
Qed.

Lemma method_table_insert_distinct_witness :
  let table' :=
    [Build_st_table_entry (key (mkey example_method)) (KeyOf 4096) 7777] in
  method_table_insert example_host example_profile example_table (KeyOf 4096)
    7777 = Ok table' /\
  distinct_keys example_host example_profile table' /\
  method_table_lookup example_host example_profile table'
    (mkey (set_object example_method 9000)) = Ok (Some 7777).
Proof.
  intros table'. split; [reflexivity|].
  destruct (method_table_insert_distinct example_host example_profile
              example_table table' (KeyOf 4096)
              (mkey (set_object example_method 9000)) 7777 eq_refl)
    as [Hd _]; [|reflexivity|].
  - constructor; [intros []|constructor].
  - split; [exact Hd|reflexivity].
Defined.

(** ** Wrappers and the life cycle of a method *)

(** X5. Wrapping a method that has no wrapper yet installs the new object,
    through which the method is reached again; wrapping it once more returns
    the same object and allocates nothing. *)
Theorem prof_method_wrap_get (h : ruby_host) (st : mem) (p : ptr)
    (m : prof_method_t) (obj : VALUE) :
  methods st !! p = Some m ->
  object m = Qnil h ->
  obj <> Qnil h ->
  exists st',
    prof_method_wrap h st p obj = Ok (obj, st') /\
    prof_method_get st' obj = Ok p /\
    prof_get_method st' obj = Ok p /\
    methods st' !! p = Some (set_object m obj) /\
    forall obj2, prof_method_wrap h st' p obj2 = Ok (obj, st').
Proof.
  intros Hp Hobj Hne. eexists. unfold prof_method_wrap, get_method.
  rewrite Hp. simpl. rewrite Hobj, Z.eqb_refl.
  split; [reflexivity|].
  unfold prof_method_get, prof_get_method, Data_Wrap_Struct, store_method.
  simpl. rewrite !lookup_insert_eq. simpl.
  split; [done|]. split; [done|]. split; [done|].
  intros obj2. by rewrite (proj2 (Z.eqb_neq obj (Qnil h)) Hne).
Qed.

Lemma prof_method_wrap_get_witness :
  exists st',
    prof_method_wrap example_host (store_method empty_mem 4096 example_method)
      4096 9000 = Ok (9000, st') /\
    prof_method_get st' 9000 = Ok 4096 /\
    prof_get_method st' 9000 = Ok 4096 /\
    methods st' !! 4096 = Some (set_object example_method 9000) /\
    forall obj2, prof_method_wrap example_host st' 4096 obj2 = Ok (9000, st').
Proof.
  apply (prof_method_wrap_get example_host
           (store_method empty_mem 4096 example_method) 4096 example_method
           9000); [reflexivity | reflexivity | vm_compute; discriminate].
Defined.

(** X6. Freeing a method releases that method only: every other method is
    as it was, and so is every object but the wrapper of the freed method,
    so that the wrappers of the other methods still reach them. *)
Theorem prof_method_free_frame (h : ruby_host) (st st' : mem) (p : ptr)
    (m : prof_method_t) :
  methods st !! p = Some m ->
  prof_method_free h st p = Ok st' ->
  methods st' !! p = None /\
  (forall q, q <> p -> methods st' !! q = methods st !! q) /\
  (forall o, o <> object m -> objects st' !! o = objects st !! o) /\
  (forall o, o <> object m ->
             prof_method_get st' o = prof_method_get st o) /\
  is_Some (parent_call_infos m) /\ is_Some (child_call_infos m).
Proof.
  intros Hp Hfree.
  unfold prof_method_free, prof_method_ruby_gc_free, get_method in Hfree.
  rewrite Hp in Hfree. simpl in Hfree.
  assert (exists objs,
            st' = {| methods := delete p (methods st); objects := objs |} /\
            (forall o, o <> object m -> objs !! o = objects st !! o) /\
            is_Some (parent_call_infos m) /\ is_Some (child_call_infos m))
    as (objs & -> & Hobjs & Htp & Htc).
  { destruct (negb (object m =? Qnil h)); simpl in Hfree.
    - destruct (objects st !! object m); simpl in Hfree; [|done].
      rewrite lookup_insert_eq in Hfree. simpl in Hfree.
      destruct (parent_call_infos m), (child_call_infos m); simplify_eq/=.
      eexists. split; [by rewrite delete_insert_eq|].
      split; [|by split]. intros o Ho. by rewrite lookup_insert_ne.
    - rewrite lookup_insert_eq in Hfree. simpl in Hfree.
      destruct (parent_call_infos m), (child_call_infos m); simplify_eq/=.
      eexists. split; [by rewrite delete_insert_eq|]. by split. }
  simpl. split; [apply lookup_delete_eq|].
  split; [intros q Hq; by rewrite lookup_delete_ne|].
  split; [done|]. split; [|done].
  intros o Ho. unfold prof_method_get. simpl. by rewrite Hobjs.
Qed.

Lemma prof_method_free_frame_witness :
  exists st',
    prof_method_free example_host example_graph 4096 = Ok st' /\
    methods st' !! 4096 = None /\
    methods st' !! 4104 = methods example_graph !! 4104.
Proof.
  destruct (prof_method_free example_host example_graph 4096)
    as [st'| | |] eqn:Hfree; try (vm_compute in Hfree; discriminate).
  exists st'. split; [reflexivity|].
  destruct (prof_method_free_frame example_host example_graph st' 4096
              example_root eq_refl Hfree) as (Hgone & Hother & _).
  split; [exact Hgone|]. apply Hother. discriminate.
Defined.

Lemma prof_method_free_methods (h : ruby_host) (st st' : mem) (p : ptr) :
  prof_method_free h st p = Ok st' ->
  is_Some (methods st !! p) /\ methods st' = delete p (methods st).
Proof.
  intros Hfree. destruct (methods st !! p) as [m|] eqn:Hp.
  - split; [by eexists|].
    by destruct (prof_method_free_inv h st st' p m Hfree Hp) as (-> & _).
  - unfold prof_method_free, prof_method_ruby_gc_free, get_method in Hfree.
    by rewrite Hp in Hfree.
Qed.

Lemma method_table_free_gone (h : ruby_host) (table : st_table ptr) :
  forall st st',
    method_table_free_iterator h st table = Ok st' ->
    (forall x, methods st !! x = None -> methods st' !! x = None) /\
    (forall e, In e table -> methods st' !! st_record e = None) /\
    (forall q, (forall e, In e table -> st_record e <> q) ->
               methods st' !! q = methods st !! q).
Proof.
  induction table as [|e0 table IH]; intros st st' Hfree; simpl in Hfree.
  - injection Hfree as <-. split; [done|]. split; [by intros e []|done].
  - destruct (prof_method_free h st (st_record e0)) as [st1| | |] eqn:Hf;
      simpl in Hfree; try done.
    destruct (prof_method_free_methods h st st1 _ Hf) as [_ Hst1].
    destruct (IH st1 st' Hfree) as (Hnone & Hgone & Hkeep).
    split; [|split].
    + intros x Hx. apply Hnone. rewrite Hst1.
      destruct (decide (st_record e0 = x)) as [->|Hne];
        [apply lookup_delete_eq|by rewrite lookup_delete_ne].
    + intros e [<-|He]; [|by apply Hgone].
      apply Hnone. rewrite Hst1. apply lookup_delete_eq.
    + intros q Hq. rewrite Hkeep by (intros e He; apply Hq; by right).
      rewrite Hst1. apply lookup_delete_ne. apply Hq. by left.
Qed.

(** X7. Freeing the method table releases every method it lists and no
    other; freeing the same non-empty table a second time reaches a method
    that is gone. *)
Theorem method_table_free_once (h : ruby_host) (st st' : mem)
    (table : st_table ptr) :
  method_table_free h st table = Ok st' ->
  (forall e, In e table -> methods st' !! st_record e = None) /\
  (forall q, (forall e, In e table -> st_record e <> q) ->
             methods st' !! q = methods st !! q) /\
  (table <> [] -> method_table_free h st' table = Fault).
Proof.
  intros Hfree. unfold method_table_free in *.
  destruct (method_table_free_gone h table st st' Hfree)
    as (_ & Hgone & Hkeep).
  split; [done|]. split; [done|].
  destruct table as [|e table]; [done|]. intros _. simpl.
  unfold prof_method_free, prof_method_ruby_gc_free, get_method.
  by rewrite (Hgone e (or_introl eq_refl)).
Qed.

Lemma method_table_free_once_witness :
  exists st',
    method_table_free example_host example_profile example_table = Ok st' /\
    methods st' !! 4096 = None /\
    method_table_free example_host st' example_table = Fault.
Proof.
  destruct (method_table_free example_host example_profile example_table)
    as [st'| | |] eqn:Hfree; try (vm_compute in Hfree; discriminate).
  exists st'. split; [reflexivity|].
  destruct (method_table_free_once example_host example_profile st'
              example_table Hfree) as (Hgone & _ & Htwice).
  split; [apply (Hgone _ (or_introl eq_refl))|]. by apply Htwice.
Defined.

(** X8. [prof_method_load] reads the data pointer of the wrapper unchecked:
    called on the wrapper of a method of a freed table it first converts
    the method id, raising a RangeError when the Integer does not fit a
    [long long], and then dereferences the NULL pointer; it never raises
    the "already freed" error the read accessors raise. *)
Theorem prof_method_load_after_free (h : ruby_host) (st st' : mem)
    (table : st_table ptr) (e : st_table_entry ptr) (m : prof_method_t)
    (d : method_dump) :
  method_table_free h st table = Ok st' ->
  In e table ->
  methods st !! st_record e = Some m ->
  object m <> Qnil h ->
  prof_method_load h st' (object m) d
  = (if (- 2 ^ 63 <=? dump_mid d) && (dump_mid d <? 2 ^ 63)
     then Fault else Raise range_error) /\
  prof_method_get st' (object m) = Raise already_freed.
Proof.
  intros Hfree Hin Hm Hobj.
  destruct (method_table_free_nulls h table st st' e m Hfree Hin Hm Hobj)
    as (r & Hr & Hdata).
  unfold prof_method_load, prof_method_get, NUM2LL. rewrite Hr. simpl.
  rewrite Hdata.
  by destruct ((- 2 ^ 63 <=? dump_mid d) && (dump_mid d <? 2 ^ 63)).
Qed.

Lemma prof_method_load_after_free_witness :
  exists st' d,
    method_table_free example_host example_profile example_table = Ok st' /\
    prof_method_dump example_profile 9000 = Ok d /\
    prof_method_load example_host st' 9000 d = Fault.
Proof.
  destruct (method_table_free example_host example_profile example_table)
    as [st'| | |] eqn:Hfree; try (vm_compute in Hfree; discriminate).
  destruct (prof_method_dump example_profile 9000) as [d| | |] eqn:Hdump;
    try (vm_compute in Hdump; discriminate).
  exists st', d. split; [reflexivity|]. split; [reflexivity|].
  destruct (prof_method_load_after_free example_host example_profile st'
              example_table
              (Build_st_table_entry (key (mkey example_method)) (KeyOf 4096)
                 4096)
              (set_object example_method 9000) d Hfree (or_introl eq_refl)
              eq_refl) as [Hload _]; [vm_compute; discriminate|].
  vm_compute in Hdump. injection Hdump as <-. exact Hload.
Defined.

(** ** What [prof_method_load] touches *)

Lemma same_scalars_refl (m : prof_method_t) : same_scalars m m.
Proof. by repeat split. Qed.

Lemma same_scalars_trans (m1 m2 m3 : prof_method_t) :
  same_scalars m1 m2 -> same_scalars m2 m3 -> same_scalars m1 m3.
Proof.
  unfold same_scalars. intros H12 H23.
  destruct H12 as (?&?&?&?&?&?&?&?&?&?&?), H23 as (?&?&?&?&?&?&?&?&?&?&?).
  repeat split; congruence.
Qed.

Lemma load_callers_scalars (h : ruby_host) (p : ptr)
    (cs : list prof_call_info_t) :
  forall st st' m,
    methods st !! p = Some m ->
    load_callers h st p cs = Ok st' ->
    exists m', methods st' !! p = Some m' /\ same_scalars m m' /\
               child_call_infos m' = child_call_infos m /\
               (cs = [] -> parent_call_infos m' = parent_call_infos m).
Proof.
  induction cs as [|c cs IH]; intros st st' m Hp Hload; simpl in Hload.
  - injection Hload as <-. exists m. split; [done|].
    split; [apply same_scalars_refl|done].
  - unfold get_method in Hload. rewrite Hp in Hload. simpl in Hload.
    destruct (parent_call_infos m) as [t|]; simpl in Hload; [|done].
    destruct (call_info_table_insert h st t _ _) as [t1| | |];
      simpl in Hload; try done.
    destruct (IH _ st' (set_parent_call_infos m t1)
                (lookup_insert_eq _ _ _) Hload) as (m' & Hm' & Hs & Hc & _).
    exists m'. split; [done|]. split; [|by split].
    apply (same_scalars_trans m (set_parent_call_infos m t1) m'); [|done].
    by repeat split.
Qed.

Lemma load_callees_scalars (h : ruby_host) (p : ptr)
    (cs : list prof_call_info_t) :
  forall st st' m,
    methods st !! p = Some m ->
    load_callees h st p cs = Ok st' ->
    exists m', methods st' !! p = Some m' /\ same_scalars m m' /\
               parent_call_infos m' = parent_call_infos m /\
               (cs = [] -> child_call_infos m' = child_call_infos m).
Proof.
  induction cs as [|c cs IH]; intros st st' m Hp Hload; simpl in Hload.
  - injection Hload as <-. exists m. split; [done|].
    split; [apply same_scalars_refl|done].
  - unfold get_method in Hload. rewrite Hp in Hload. simpl in Hload.
    destruct (child_call_infos m) as [t|]; simpl in Hload; [|done].
    destruct (call_info_table_insert h st t _ _) as [t1| | |];
      simpl in Hload; try done.
    destruct (IH _ st' (set_child_call_infos m t1)
                (lookup_insert_eq _ _ _) Hload) as (m' & Hm' & Hs & Hc & _).
    exists m'. split; [done|]. split; [|by split].
    apply (same_scalars_trans m (set_child_call_infos m t1) m'); [|done].
    by repeat split.
Qed.

(** X9. A load that returns has converted the three integers of the record
    within their ranges and its source file without meeting a null byte,
    rebuilt the key by [method_key], set the source information and the
    recursion flag (the integer of the record tested against 0), and has
    left the root and excluded flags, the visits, the wrapper and the
    resolution cache as they were: a method that was resolved before the
    load keeps answering its old source owner. *)
Theorem prof_method_load_frame (h : ruby_host) (st st' : mem) (self : VALUE)
    (p : ptr) (m : prof_method_t) (d : method_dump) :
  prof_get_method st self = Ok p ->
  methods st !! p = Some m ->
  prof_method_load h st self d = Ok st' ->
  exists m',
    methods st' !! p = Some m' /\
    - 2 ^ 63 <= dump_mid d < 2 ^ 63 /\
    - 2 ^ 31 <= dump_line d < 2 ^ 31 /\
    - 2 ^ 31 <= dump_recursive d < 2 ^ 31 /\
    c_string (dump_source_file d) /\
    mkey m' = method_key h (dump_klass d) (wrap64 (dump_mid d)) /\
    recursive m' = negb (dump_recursive d =? 0) /\
    source_file m' = dump_source_file d /\
    line m' = match dump_source_file d with
              | Some _ => dump_line d
              | None => 0
              end /\
    root m' = root m /\ excluded m' = excluded m /\ visits m' = visits m /\
    object m' = object m /\
    source_klass m' = source_klass m /\ resolved m' = resolved m /\
    relation m' = relation m /\
    (resolved m <> 0 ->
     forall fuel, resolve_source_klass fuel h m' = Some (source_klass m, m', 0%nat)).
Proof.
  intros Hself Hp Hload. unfold prof_get_method in Hself.
  unfold prof_method_load, NUM2LL, FIX2INT in Hload.
  destruct (objects st !! self) as [r|]; [|done]. simpl in *.
  destruct (data r) as [q|]; [|done]. injection Hself as ->.
  destruct (Z.leb_spec (- 2 ^ 63) (dump_mid d)) as [Hm1|]; [|done].
  destruct (Z.ltb_spec (dump_mid d) (2 ^ 63)) as [Hm2|]; [|done].
  simpl in Hload.
  unfold get_method in Hload at 1. rewrite Hp in Hload. simpl in Hload.
  destruct (Z.leb_spec (- 2 ^ 31) (dump_line d)) as [Hl1|]; [|done].
  destruct (Z.ltb_spec (dump_line d) (2 ^ 31)) as [Hl2|]; [|done].
  simpl in Hload.
  destruct (c_source_file (dump_source_file d)) as [f| | |] eqn:Hf;
    simpl in Hload; try done.
  apply c_source_file_inv in Hf as [-> Hcstr].
  destruct (Z.leb_spec (- 2 ^ 31) (dump_recursive d)) as [Hr1|]; [|done].
  destruct (Z.ltb_spec (dump_recursive d) (2 ^ 31)) as [Hr2|]; [|done].
  simpl in Hload.
  set (m1 := set_recursive _ _) in Hload.
  destruct (load_callers h (store_method st p m1) p (dump_callers d))
    as [st2| | |] eqn:Hcallers; simpl in Hload; try done.
  destruct (load_callers_scalars h p _ _ st2 m1 (lookup_insert_eq _ _ _)
              Hcallers) as (m2 & Hm2' & Hs2 & _).
  destruct (load_callees_scalars h p _ _ st' m2 Hm2' Hload)
    as (m3 & Hm3 & Hs3 & _).
  destruct (same_scalars_trans m1 m2 m3 Hs2 Hs3)
    as (Hk & Hroot & Hexcl & Hrec & Hvis & Hobj & Hfile & Hline & Hsk & Hres
        & Hrel).
  exists m3. split; [done|].
  assert (line m1 = match dump_source_file d with
                    | Some _ => dump_line d
                    | None => 0
                    end /\ source_file m1 = dump_source_file d /\
          mkey m1 = method_key h (dump_klass d) (wrap64 (dump_mid d))
          /\ root m1 = root m /\ excluded m1 = excluded m /\
          visits m1 = visits m /\ object m1 = object m /\
          source_klass m1 = source_klass m /\ resolved m1 = resolved m /\
          relation m1 = relation m /\
          recursive m1 = negb (dump_recursive d =? 0))
    as (Hl1' & Hf1 & Hk1 & Hr1' & He1 & Hv1 & Ho1 & Hs1 & Hrs1 & Hrl1 & Hrc1).
  { unfold m1. by destruct (dump_source_file d). }
  repeat split; try congruence; try done.
  intros Hresolved fuel. unfold resolve_source_klass.
  rewrite Hres, Hrs1, (proj2 (Z.eqb_neq _ _) Hresolved). simpl.
  by rewrite Hsk, Hs1.
Qed.

Lemma prof_method_load_frame_witness :
  exists st' m',
    prof_source_klass 2 example_host example_graph 9000
    = Ok (1000, store_method example_graph 4096
                  (set_resolution example_root 0 1000)) /\
    prof_method_load example_host
      (store_method example_graph 4096 (set_resolution example_root 0 1000))
      9000 example_record = Ok st' /\
    methods st' !! 4096 = Some m' /\
    klass (mkey m') = 3000 /\
    root m' = Some true /\
    resolve_source_klass 0 example_host m' = Some (1000, m', 0%nat).
Proof.
  destruct (prof_method_load example_host
              (store_method example_graph 4096
                 (set_resolution example_root 0 1000)) 9000 example_record)
    as [st'| | |] eqn:Hload; try (vm_compute in Hload; discriminate).
  destruct (prof_method_load_frame example_host
              (store_method example_graph 4096
                 (set_resolution example_root 0 1000)) st' 9000 4096
              (set_resolution example_root 0 1000) example_record
              eq_refl eq_refl Hload)
    as (m' & Hm' & _ & _ & _ & _ & Hk & _ & _ & _ & Hroot & _ & _ & _ & _ & _
        & _ & Hstale).
  exists st', m'. split; [reflexivity|]. split; [reflexivity|].
  split; [exact Hm'|]. split; [by rewrite Hk|]. split; [exact Hroot|].
  apply Hstale. discriminate.
Defined.

(** X10. A record without callers and callees whose method id fits a
    [long long], whose line and recursion flag fit an [int] and whose source
    file holds no null byte is loaded on every live wrapper without
    touching the edge tables, be they assigned or not; no other method and
    no object changes. *)
Theorem prof_method_load_empty (h : ruby_host) (st : mem) (self : VALUE)
    (p : ptr) (m : prof_method_t) (d : method_dump) :
  prof_get_method st self = Ok p ->
  methods st !! p = Some m ->
  - 2 ^ 63 <= dump_mid d < 2 ^ 63 ->
  - 2 ^ 31 <= dump_line d < 2 ^ 31 ->
  - 2 ^ 31 <= dump_recursive d < 2 ^ 31 ->
  c_string (dump_source_file d) ->
  dump_callers d = [] ->
  dump_callees d = [] ->
  exists st' m',
    prof_method_load h st self d = Ok st' /\
    methods st' !! p = Some m' /\
    parent_call_infos m' = parent_call_infos m /\
    child_call_infos m' = child_call_infos m /\
    objects st' = objects st /\
    forall q, q <> p -> methods st' !! q = methods st !! q.
Proof.
  intros Hself Hp [Hm1 Hm2] Hln Hrc Hcstr Hcallers Hcallees.
  unfold prof_get_method in Hself.
  unfold prof_method_load, NUM2LL.
  destruct (objects st !! self) as [r|]; [|done]. simpl in *.
  destruct (data r) as [q|]; [|done]. injection Hself as ->.
  rewrite (proj2 (Z.leb_le _ _) Hm1), (proj2 (Z.ltb_lt _ _) Hm2). simpl.
  unfold get_method. rewrite Hp. simpl.
  rewrite (FIX2INT_ok _ Hln). simpl. rewrite (c_source_file_ok _ Hcstr).
  simpl. rewrite (FIX2INT_ok _ Hrc). simpl.
  rewrite Hcallers, Hcallees. simpl.
  eexists _, _. split; [reflexivity|]. simpl.
  split; [apply lookup_insert_eq|].
  split; [by destruct (dump_source_file d)|].
  split; [by destruct (dump_source_file d)|]. split; [done|].
  intros q Hq. by rewrite lookup_insert_ne.
Qed.

Lemma prof_method_load_empty_witness :
  exists st' m',
    prof_method_load example_host example_excluded 9100 example_record = Ok st' /\
    methods st' !! 4200 = Some m' /\
    parent_call_infos m' = None /\
    child_call_infos m' = None.
Proof.
  destruct (prof_method_load_empty example_host example_excluded 9100 4200
              (set_object (prof_method_create_excluded example_host 1000 1201)
                 9100) example_record eq_refl eq_refl)
    as (st' & m' & Hload & Hm' & Hp & Hc & _);
    try (intros s [= <-]; reflexivity); try reflexivity;
    try (vm_compute; split; [discriminate|reflexivity]).
  exists st', m'. split; [exact Hload|]. split; [exact Hm'|].
  split; [exact Hp|exact Hc].
Defined.

(** ** More on the resolution walk *)

Lemma resolve_walk_cumulative_witness :
  resolve_walk 2 example_host 2008 4 = Some (2000, 6, 2%nat) /\
  Z.testbit 6 (kObjectSingleton example_host) = true.
Proof.
  split; [reflexivity|].
  apply (resolve_walk_cumulative example_host 2 2008 4 2000 6 2%nat
           (kObjectSingleton example_host)); reflexivity.
Defined.

Lemma resolve_walk_stop (h : ruby_host) (fuel : nat) (k : VALUE) (r : Z) :
  resolve_next h k = None -> resolve_walk (S fuel) h k r = Some (k, r, 1%nat).
Proof.
  unfold resolve_next. simpl. destruct (is_nil_klass h k); [done|].
  destruct (ruby_type_eqb (BUILTIN_TYPE h k) T_CLASS && FL_SINGLETON h k).
  - by destruct (BUILTIN_TYPE h (rb_iv_get_attached h k)).
  - by destruct (ruby_type_eqb (BUILTIN_TYPE h k) T_ICLASS).
Qed.

(** X12. The owner the walk returns is one the walk has no step from: it is
    absent, or neither a singleton class nor an inclusion proxy. *)
Theorem resolve_walk_reaches_source (h : ruby_host) (fuel : nat) :
  forall k r k' r' n,
    resolve_walk fuel h k r = Some (k', r', n) ->
    resolve_next h k' = None /\
    (is_nil_klass h k' = true \/
     (BUILTIN_TYPE h k' <> T_ICLASS /\
      (BUILTIN_TYPE h k' = T_CLASS -> FL_SINGLETON h k' = false))).
Proof.
  induction fuel as [|fuel IH]; intros k r k' r' n Hwalk; [done|].
  simpl in Hwalk.
  assert (forall k0 r0,
            match resolve_walk fuel h k0 r0 with
            | Some (k1, r1, n1) => Some (k1, r1, S n1)
            | None => None
            end = Some (k', r', n) ->
            exists n1, resolve_walk fuel h k0 r0 = Some (k', r', n1)) as Hstep.
  { intros k0 r0 Hs.
    destruct (resolve_walk fuel h k0 r0) as [[[k1 r1] n1]|]; [|done].
    injection Hs as <- <- <-. by eexists. }
  unfold resolve_next.
  destruct (is_nil_klass h k) eqn:Hnil.
  { injection Hwalk as <- <- <-. rewrite Hnil. split; [done|by left]. }
  destruct (ruby_type_eqb (BUILTIN_TYPE h k) T_CLASS && FL_SINGLETON h k)
    eqn:Hsing.
  - destruct (_ || _).
    + apply Hstep in Hwalk as [n1 Hw]. by apply (IH _ _ _ _ _ Hw).
    + destruct (ruby_type_eqb _ T_OBJECT);
        apply Hstep in Hwalk as [n1 Hw]; by apply (IH _ _ _ _ _ Hw).
  - destruct (ruby_type_eqb (BUILTIN_TYPE h k) T_ICLASS) eqn:Hic.
    + apply Hstep in Hwalk as [n1 Hw]. by apply (IH _ _ _ _ _ Hw).
    + injection Hwalk as <- <- <-. rewrite Hnil, Hsing, Hic.
      split; [done|]. right. split.
      * intros Heq. by rewrite Heq in Hic.
      * intros Heq. rewrite Heq in Hsing. exact Hsing.
Qed.

Lemma resolve_walk_reaches_source_witness :
  resolve_next example_host 3000 = None /\
  (is_nil_klass example_host 3000 = true \/
   (BUILTIN_TYPE example_host 3000 <> T_ICLASS /\
    (BUILTIN_TYPE example_host 3000 = T_CLASS ->
     FL_SINGLETON example_host 3000 = false))).
Proof.
  apply (resolve_walk_reaches_source example_host 2 3008 0 3000 4 2%nat).
  reflexivity.
Defined.

(** ** Names of singleton methods *)

Lemma RP_REL_SET_zero_testbit (a b : Z) :
  0 <= a -> Z.testbit (RP_REL_SET 0 a) b = (a =? b).
Proof.
  intros Ha. unfold RP_REL_SET. rewrite Z.lor_0_l, Z.shiftl_1_l.
  destruct (Z.ltb_spec b 0).
  - rewrite Z.testbit_neg_r by lia. symmetry. apply Z.eqb_neq. lia.
  - by apply Z.pow2_bits_eqb.
Qed.

Lemma prof_method_create_owner (h : ruby_host) (f : option string)
    (event : Z) (k : VALUE) (i : ID) (l : Z) :
  is_nil_klass h k = false ->
  BUILTIN_TYPE h k <> T_ICLASS ->
  mkey (prof_method_create h f event k i l)
  = {| klass := k; mid := i; key := combined_hash k i |}.
Proof.
  intros Hnil Htype. rewrite prof_method_create_key. unfold method_key.
  by rewrite Hnil, (ruby_type_eqb_neq _ _ Htype).
Qed.

Lemma resolve_walk_S (fuel : nat) (h : ruby_host) (k : VALUE) (r : Z) :
  resolve_walk (S fuel) h k r
  = let continue k0 r0 :=
      match resolve_walk fuel h k0 r0 with
      | Some (k', r', n) => Some (k', r', S n)
      | None => None
      end in
    if is_nil_klass h k then Some (k, r, 1%nat)
    else if ruby_type_eqb (BUILTIN_TYPE h k) T_CLASS && FL_SINGLETON h k
    then
      if ruby_type_eqb (BUILTIN_TYPE h (rb_iv_get_attached h k)) T_CLASS
         || ruby_type_eqb (BUILTIN_TYPE h (rb_iv_get_attached h k)) T_MODULE
      then continue (rb_iv_get_attached h k)
                    (RP_REL_SET r (kModuleSingleton h))
      else if ruby_type_eqb (BUILTIN_TYPE h (rb_iv_get_attached h k)) T_OBJECT
      then continue (rb_class_superclass h k)
                    (RP_REL_SET r (kObjectSingleton h))
      else continue (rb_class_superclass h k)
                    (RP_REL_SET r (kObjectSingleton h))
    else if ruby_type_eqb (BUILTIN_TYPE h k) T_ICLASS
    then continue (RBASIC_klass h k) (RP_REL_SET r (kModuleIncludee h))
    else Some (k, r, 1%nat).
Proof. reflexivity. Qed.

(** X13. A method of the singleton class of a class or module [A] (a "class
    method") is named after the singleton class in its full name, and after
    [A] with the ["^"] marker alone in its calltree name: the walk takes one
    step to [A] and sets [kModuleSingleton] only. *)
Theorem calltree_name_of_module_singleton (h : ruby_host)
    (f : option string) (event : Z) (K : VALUE) (mid0 : ID) (line0 : Z)
    (fuel : nat) :
  is_nil_klass h K = false ->
  BUILTIN_TYPE h K = T_CLASS ->
  FL_SINGLETON h K = true ->
  BUILTIN_TYPE h (rb_iv_get_attached h K) = T_CLASS
  \/ BUILTIN_TYPE h (rb_iv_get_attached h K) = T_MODULE ->
  resolve_next h (rb_iv_get_attached h K) = None ->
  RTEST h (rb_iv_get_attached h K) = true ->
  ends_with_sep (rb_class_name h (rb_iv_get_attached h K)) = false ->
  0 <= kModuleSingleton h ->
  kObjectSingleton h <> kModuleSingleton h ->
  let A := rb_iv_get_attached h K in
  let m := prof_method_create h f event K mid0 line0 in
  exists m',
    resolve_source_klass (S (S fuel)) h m = Some (A, m', 2%nat) /\
    calltree_name h A (relation m') (mid (mkey m'))
    = ns_to_path (rb_class_name h A) +:+ "::^" +:+ method_name h mid0 /\
    full_name h (klass (mkey m)) (mid (mkey m))
    = match BUILTIN_TYPE h A with
      | T_CLASS => "<Class::"
      | _ => "<Module::"
      end +:+ rb_class_name h A +:+ ">#" +:+ method_name h mid0.
Proof.
  intros Hnil Hcls Hsing Hatt Hstop Htest Hname Hoff Hdist A m. subst A m.
  assert (mkey (prof_method_create h f event K mid0 line0)
          = {| klass := K; mid := mid0; key := combined_hash K mid0 |})
    as Hkey.
  { apply prof_method_create_owner; [done|]. by rewrite Hcls. }
  assert (resolve_walk (S (S fuel)) h K 0
          = Some (rb_iv_get_attached h K,
                  RP_REL_SET 0 (kModuleSingleton h), 2%nat)) as Hwalk.
  { rewrite resolve_walk_S. cbv zeta. rewrite Hnil, Hcls, Hsing.
    cbn [ruby_type_eqb andb].
    rewrite (resolve_walk_stop h fuel _ _ Hstop).
    by destruct Hatt as [-> | ->]. }
  eexists. split; [|split].
  - unfold resolve_source_klass.
    rewrite (prof_method_create_resolved h f event K mid0 line0).
    simpl negb. cbv iota. rewrite Hkey. simpl klass.
    by rewrite Hwalk.
  - simpl. rewrite Hkey. simpl.
    rewrite calltree_name_calltreeName by done. unfold calltreeName.
    rewrite Htest, !RP_REL_SET_zero_testbit, Z.eqb_refl by done.
    by rewrite (proj2 (Z.eqb_neq _ _) (not_eq_sym Hdist)).
  - rewrite Hkey. simpl. unfold full_name, klass_name.
    rewrite Hnil, Hcls, Hsing. simpl. unfold figure_singleton_name.
    destruct Hatt as [-> | ->]; simpl; by rewrite !append_assoc.
Qed.

Lemma calltree_name_of_module_singleton_witness :
  exists m',
    resolve_source_klass 2 example_host
      (prof_method_create example_host (Some "app.rb") 8 5008 1201 3)
    = Some (5000, m', 2%nat) /\
    calltree_name example_host 5000 (relation m') (mid (mkey m'))
    = "A/B::^run" /\
    full_name example_host 5008 1201 = "<Module::A::B>#run".
Proof.
  apply (calltree_name_of_module_singleton example_host (Some "app.rb") 8
           5008 1201 3 0); try reflexivity.
  - by right.
  - vm_compute. discriminate.
  - vm_compute. discriminate.
Defined.

(** X14. A method of the singleton class of a plain object is named after
    the superclass [S] of the singleton class, in its full name as
    ["<Object::S>"] and in its calltree name with the ["*"] marker alone. *)
Theorem calltree_name_of_object_singleton (h : ruby_host)
    (f : option string) (event : Z) (K : VALUE) (mid0 : ID) (line0 : Z)
    (fuel : nat) :
  is_nil_klass h K = false ->
  BUILTIN_TYPE h K = T_CLASS ->
  FL_SINGLETON h K = true ->
  BUILTIN_TYPE h (rb_iv_get_attached h K) = T_OBJECT ->
  resolve_next h (rb_class_superclass h K) = None ->
  RTEST h (rb_class_superclass h K) = true ->
  ends_with_sep (rb_class_name h (rb_class_superclass h K)) = false ->
  0 <= kObjectSingleton h ->
  kObjectSingleton h <> kModuleSingleton h ->
  let sup := rb_class_superclass h K in
  let m := prof_method_create h f event K mid0 line0 in
  exists m',
    resolve_source_klass (2 + fuel) h m = Some (sup, m', 2%nat) /\
    calltree_name h sup (relation m') (mid (mkey m'))
    = ns_to_path (rb_class_name h sup) +:+ "::*" +:+ method_name h mid0 /\
    full_name h (klass (mkey m)) (mid (mkey m))
    = "<Object::" +:+ rb_class_name h sup +:+ ">#" +:+ method_name h mid0.
Proof.
  intros Hnil Hcls Hsing Hatt Hstop Htest Hname Hoff Hdist sup m. subst sup m.
  assert (mkey (prof_method_create h f event K mid0 line0)
          = {| klass := K; mid := mid0; key := combined_hash K mid0 |})
    as Hkey.
  { apply prof_method_create_owner; [done|]. by rewrite Hcls. }
  assert (resolve_walk (2 + fuel) h K 0
          = Some (rb_class_superclass h K,
                  RP_REL_SET 0 (kObjectSingleton h), 2%nat)) as Hwalk.
  { change (2 + fuel)%nat with (S (S fuel)).
    rewrite resolve_walk_S. cbv zeta. rewrite Hnil, Hcls, Hsing, Hatt.
    cbn [ruby_type_eqb andb orb].
    by rewrite (resolve_walk_stop h fuel _ _ Hstop). }
  eexists. split; [|split].
  - unfold resolve_source_klass.
    rewrite (prof_method_create_resolved h f event K mid0 line0).
    simpl negb. cbv iota. rewrite Hkey. simpl klass.
    by rewrite Hwalk.
  - simpl. rewrite Hkey. simpl.
    rewrite calltree_name_calltreeName by done. unfold calltreeName.
    rewrite Htest, !RP_REL_SET_zero_testbit, Z.eqb_refl by done.
    by rewrite (proj2 (Z.eqb_neq _ _) Hdist).
  - rewrite Hkey. simpl. unfold full_name, klass_name.
    rewrite Hnil, Hcls, Hsing. simpl. unfold figure_singleton_name.
    rewrite Hatt. simpl. by rewrite !append_assoc.
Qed.

Lemma calltree_name_of_object_singleton_witness :
  exists m',
    resolve_source_klass 2 example_host
      (prof_method_create example_host (Some "app.rb") 8 3008 1201 3)
    = Some (3000, m', 2%nat) /\
    calltree_name example_host 3000 (relation m') (mid (mkey m'))
    = "Baz::*run" /\
    full_name example_host 3008 1201 = "<Object::Baz>#run".
Proof.
  apply (calltree_name_of_object_singleton example_host (Some "app.rb") 8
           3008 1201 3 0); try reflexivity.
  - vm_compute. discriminate.
  - vm_compute. discriminate.
Defined.

(** ** What the accessors answer for created methods *)

(** X15. A method created for a C call has no source file: through its
    wrapper the source file reads ["ruby_runtime"] and the line 0, whatever
    line the event carried, while its dump holds no source file at all. *)
Theorem native_method_source (h : ruby_host) (f : option string)
    (k : VALUE) (i : ID) (l : Z) (o : VALUE) (st : mem) (p : ptr)
    (self : VALUE) :
  methods st !! p
  = Some (set_object (prof_method_create h f (RUBY_EVENT_C_CALL h) k i l) o) ->
  prof_method_get st self = Ok p ->
  prof_method_source_file st self = Ok "ruby_runtime" /\
  prof_method_line st self = Ok 0 /\
  exists d, prof_method_dump st self = Ok d /\
            dump_source_file d = None /\ dump_line d = 0 /\
            dump_callers d = [] /\ dump_callees d = [].
Proof.
  intros Hp Hself.
  assert (prof_method_create h f (RUBY_EVENT_C_CALL h) k i l
          = prof_method_set_source_info
              {| mkey := method_key h k i; root := Some false; excluded := 0;
                 recursive := false;
                 parent_call_infos := Some method_table_create;
                 child_call_infos := Some method_table_create;
                 visits := 0; object := Qnil h; source_file := None;
                 line := 0; source_klass := Qnil h; resolved := 0;
                 relation := 0 |} None l) as Hcreate.
  { unfold prof_method_create. by rewrite Z.eqb_refl. }
  rewrite Hcreate in Hp. simpl in Hp.
  unfold prof_method_source_file, prof_method_line, prof_method_dump,
    prof_method_callers, prof_method_callees, prof_get_method.
  rewrite Hself. unfold prof_method_get in Hself.
  destruct (objects st !! self) as [r|]; [|done]. simpl in *.
  destruct (data r) as [q|]; [|done]. injection Hself as ->.
  unfold get_method. split; [by rewrite Hp|]. split; [by rewrite Hp|].
  eexists. simpl. rewrite Hp. simpl. split; [reflexivity|done].
Qed.

Lemma native_method_source_witness :
  let st :=
    Data_Wrap_Struct
      (store_method empty_mem 4300
         (set_object
            (prof_method_create example_host (Some "app.rb") 32 4000 1300 99)
            9200)) 9200 4300 in
  prof_method_source_file st 9200 = Ok "ruby_runtime" /\
  prof_method_line st 9200 = Ok 0 /\
  exists d, prof_method_dump st 9200 = Ok d /\
            dump_source_file d = None /\ dump_line d = 0 /\
            dump_callers d = [] /\ dump_callees d = [].
Proof.
  apply (native_method_source example_host (Some "app.rb") 4000 1300 99 9200
           _ 4300 9200); reflexivity.
Defined.

(** X16. Marking a method whose two tables are assigned passes every edge
    of both tables to the edge marker, callers first, and marks exactly the
    non-zero handles among the owner of the key, the cached source owner and
    the wrapper; marking a method with an unassigned table reads that
    table. *)
Theorem prof_method_mark_edges (st : mem) (p : ptr) (m : prof_method_t) :
  methods st !! p = Some m ->
  match parent_call_infos m, child_call_infos m with
  | Some tp, Some tc =>
      exists marked,
        prof_method_mark st p
        = Ok (marked, (map st_record tp ++ map st_record tc)%list) /\
        forall v, In v marked
                  <-> v <> 0 /\ (v = klass (mkey m) \/ v = source_klass m
                                 \/ v = object m)
  | _, _ => prof_method_mark st p = Fault
  end.
Proof.
  intros Hp. unfold prof_method_mark, get_method. rewrite Hp. simpl.
  destruct (parent_call_infos m) as [tp|]; [|done]. simpl.
  destruct (child_call_infos m) as [tc|]; [|done]. simpl.
  eexists. split; [reflexivity|]. intros v.
  rewrite !in_app_iff.
  destruct (Z.eqb_spec (klass (mkey m)) 0), (Z.eqb_spec (source_klass m) 0),
    (Z.eqb_spec (object m) 0); simpl; intuition congruence.
Qed.

Lemma prof_method_mark_edges_witness :
  prof_method_mark example_excluded 4200 = Fault.
Proof.
  apply (prof_method_mark_edges example_excluded 4200
           (set_object (prof_method_create_excluded example_host 1000 1201)
              9100) eq_refl).
Defined.

(** X17. When the collector frees the wrapper of a live method, the method
    stays, its wrapper field is cleared and the data pointer of the old
    wrapper is NULL (an access through it raises "already freed"); the next
    wrap installs a new wrapper that reaches the method. *)
Theorem prof_method_ruby_gc_free_rewrap (h : ruby_host) (st : mem) (p : ptr)
    (m : prof_method_t) (r : RData) (obj2 : VALUE) :
  methods st !! p = Some m ->
  object m <> Qnil h ->
  objects st !! object m = Some r ->
  obj2 <> Qnil h ->
  exists st1 st2,
    prof_method_ruby_gc_free h st p = Ok st1 /\
    methods st1 !! p = Some (set_object m (Qnil h)) /\
    prof_method_get st1 (object m) = Raise already_freed /\
    prof_method_wrap h st1 p obj2 = Ok (obj2, st2) /\
    prof_method_get st2 obj2 = Ok p /\
    (obj2 <> object m ->
     prof_method_get st2 (object m) = Raise already_freed).
Proof.
  intros Hp Hobj Hr Hobj2.
  unfold prof_method_ruby_gc_free, get_method. rewrite Hp. simpl.
  rewrite (proj2 (Z.eqb_neq _ _) Hobj). simpl. rewrite Hr. simpl.
  eexists _, _. split; [reflexivity|].
  split; [apply lookup_insert_eq|].
  split. { unfold prof_method_get. simpl. by rewrite lookup_insert_eq. }
  unfold prof_method_wrap, get_method. simpl. rewrite lookup_insert_eq.
  simpl. rewrite Z.eqb_refl.
  split; [reflexivity|].
  unfold prof_method_get, Data_Wrap_Struct, store_method. simpl.
  split; [by rewrite lookup_insert_eq|].
  intros Hne. rewrite lookup_insert_ne by done. by rewrite lookup_insert_eq.
Qed.

Lemma prof_method_ruby_gc_free_rewrap_witness :
  exists st1 st2,
    prof_method_ruby_gc_free example_host example_profile 4096 = Ok st1 /\
    methods st1 !! 4096 = Some (set_object (set_object example_method 9000) 8) /\
    prof_method_get st1 9000 = Raise already_freed /\
    prof_method_wrap example_host st1 4096 9008 = Ok (9008, st2) /\
    prof_method_get st2 9008 = Ok 4096 /\
    (9008 <> 9000 -> prof_method_get st2 9000 = Raise already_freed).
Proof.
  apply (prof_method_ruby_gc_free_rewrap example_host example_profile 4096
           (set_object example_method 9000)
           {| data := Some 4096; dmark := true; dfree := true |} 9008);
    try reflexivity; vm_compute; discriminate.
Defined.

(** X18. A method observed through an inclusion proxy of a module [M] shows
    [M] as its class and is named ["M#name"]: the proxy never reaches the
    accessors. *)
Theorem prof_full_name_of_proxy_method (h : ruby_host) (f : option string)
    (event : Z) (proxy : VALUE) (i : ID) (l : Z) (o : VALUE) (st : mem)
    (p : ptr) (self : VALUE) :
  is_nil_klass h proxy = false ->
  BUILTIN_TYPE h proxy = T_ICLASS ->
  is_nil_klass h (RBASIC_klass h proxy) = false ->
  BUILTIN_TYPE h (RBASIC_klass h proxy) = T_MODULE ->
  RTEST h i = true ->
  methods st !! p
  = Some (set_object (prof_method_create h f event proxy i l) o) ->
  prof_method_get st self = Ok p ->
  prof_method_klass st self = Ok (RBASIC_klass h proxy) /\
  prof_klass_name h st self = Ok (rb_class_name h (RBASIC_klass h proxy)) /\
  prof_method_name h st self = Ok (rb_id2str h i) /\
  prof_full_name h st self
  = Ok (rb_class_name h (RBASIC_klass h proxy) +:+ "#" +:+ rb_id2str h i).
Proof.
  intros Hnil Hproxy HnilM HM Hi Hp Hself.
  assert (mkey (set_object (prof_method_create h f event proxy i l) o)
          = {| klass := RBASIC_klass h proxy; mid := i;
               key := combined_hash proxy i |}) as Hkey.
  { change (mkey (set_object ?m o)) with (mkey m).
    rewrite prof_method_create_key. unfold method_key.
    by rewrite Hnil, Hproxy. }
  remember (set_object (prof_method_create h f event proxy i l) o) as m0.
  unfold prof_method_klass, prof_klass_name, prof_method_name, prof_full_name.
  rewrite Hself. simpl. unfold get_method. rewrite Hp. simpl.
  rewrite Hkey. simpl.
  unfold full_name, klass_name, method_name. rewrite HnilM, HM, Hi. simpl.
  done.
Qed.

Lemma prof_full_name_of_proxy_method_witness :
  let st :=
    Data_Wrap_Struct
      (store_method empty_mem 4300
         (set_object
            (prof_method_create example_host (Some "app.rb") 8 2104 1201 5)
            9200)) 9200 4300 in
  prof_method_klass st 9200 = Ok 2000 /\
  prof_klass_name example_host st 9200 = Ok "Bar" /\
  prof_method_name example_host st 9200 = Ok "run" /\
  prof_full_name example_host st 9200 = Ok "Bar#run".
Proof.
  apply (prof_full_name_of_proxy_method example_host (Some "app.rb") 8 2104
           1201 5 9200 _ 4300 9200); reflexivity.
Defined.

(** X19. An excluded method never had its root flag assigned: [root?] on its
    wrapper reads the unassigned field, while the flags and the source
    information that [prof_method_create_excluded] does assign are
    readable. *)
Theorem prof_method_root_of_excluded (h : ruby_host) (k : VALUE) (i : ID)
    (o : VALUE) (st : mem) (p : ptr) (self : VALUE) :
  methods st !! p = Some (set_object (prof_method_create_excluded h k i) o) ->
  prof_method_get st self = Ok p ->
  prof_method_root st self = Fault /\
  prof_method_recursive st self = Ok false /\
  prof_method_line st self = Ok 0 /\
  prof_method_source_file st self = Ok "ruby_runtime" /\
  prof_method_id st self = Ok i.
Proof.
  intros Hp Hself.
  unfold prof_method_root, prof_method_recursive, prof_method_line,
    prof_method_source_file, prof_method_id.
  rewrite Hself. simpl. unfold get_method. rewrite Hp. simpl.
  repeat split; try done. by rewrite method_key_mid.
Qed.

Lemma prof_method_root_of_excluded_witness :
  prof_method_root example_excluded 9100 = Fault /\
  prof_method_recursive example_excluded 9100 = Ok false /\
  prof_method_line example_excluded 9100 = Ok 0 /\
  prof_method_source_file example_excluded 9100 = Ok "ruby_runtime" /\
  prof_method_id example_excluded 9100 = Ok 1201.
Proof.
  apply (prof_method_root_of_excluded example_host 1000 1201 9100
           example_excluded 4200 9100); reflexivity.
Defined.

(** ** Keys, equality and hashes *)

Lemma combined_hash_inj_owner (a b : VALUE) (i : ID) :
  0 <= a < 2 ^ 60 -> 0 <= b < 2 ^ 60 ->
  combined_hash a i = combined_hash b i -> a = b.
Proof.
  intros Ha Hb. unfold combined_hash, wrap64.
  rewrite !Z.shiftl_mul_pow2 by lia.
  change (2 ^ 4) with 16. change (2 ^ 2) with 4.
  change (2 ^ 64) with 18446744073709551616.
  change (2 ^ 60) with 1152921504606846976 in Ha, Hb.
  intros Heq.
  rewrite (Z.mod_small (a * 16)), (Z.mod_small (b * 16)) in Heq by lia.
  pose proof (Z.mod_pos_bound (i * 4) 18446744073709551616 eq_refl) as Hc.
  set (c := (i * 4) mod 18446744073709551616) in *.
  assert ((a * 16 + c - (b * 16 + c)) mod 18446744073709551616 = 0) as Hd.
  { rewrite Zminus_mod, Heq, Z.sub_diag. reflexivity. }
  replace (a * 16 + c - (b * 16 + c)) with ((a - b) * 16) in Hd by lia.
  apply Z.mod_divide in Hd; [|done]. destruct Hd as [q Hq]. lia.
Qed.

(** X21. Two different raw owners below 2^60 that [method_key] normalizes
    to the same owner (two proxies of one module; the null handle and
    [Qnil]) give keys that compare equal and hash differently, whatever the
    method. *)
Theorem method_key_hash_mismatch (h : ruby_host) (a b : VALUE) (i : ID) :
  0 <= a < 2 ^ 60 ->
  0 <= b < 2 ^ 60 ->
  a <> b ->
  normalized_owner h a = normalized_owner h b ->
  method_table_cmp (method_key h a i) (method_key h b i) = 0 /\
  method_table_hash (method_key h a i) <> method_table_hash (method_key h b i).
Proof.
  intros Ha Hb Hne Hnorm. split.
  - apply method_table_cmp_eq. unfold key_id.
    by rewrite !method_key_klass, !method_key_mid, Hnorm.
  - unfold method_table_hash. rewrite !method_key_hash. intros Heq.
    apply Hne. by apply (combined_hash_inj_owner a b i).
Qed.

Lemma method_key_hash_mismatch_witness :
  method_table_cmp (method_key example_host 0 1201)
    (method_key example_host 8 1201) = 0 /\
  method_table_hash (method_key example_host 0 1201)
  <> method_table_hash (method_key example_host 8 1201).
Proof.
  apply (method_key_hash_mismatch example_host 0 8 1201);
    [vm_compute; split; [discriminate|reflexivity]
    |vm_compute; split; [discriminate|reflexivity]
    |discriminate|reflexivity].
Defined.
